(** * ls1-mardyn: the vectorized cell processor, the one-stage halo exchange
      and the Mirror plug-in, embedded in Rocq.

    Numbers.  Every [double] of the C++ sources is read as an exact rational
    ([Q]): the development states what the formulas of the kernels compute,
    not how binary64 rounds them.  Equality of doubles is therefore [Qeq]
    ([==]).  Bit masks (the entries of the dist-lookup arrays) are 64-bit
    patterns in [Z].  Indices and counts are [nat].

    Lanes.  The SIMD operations of the sources act lane by lane; the
    embedding is the build with one lane per vector (VCP_VEC_TYPE ==
    VCP_NOVEC, VCP_VEC_SIZE == 1), so that a [vcp_double_vec] is one [Q]
    and a horizontal sum is the value of that lane. *)

From Stdlib Require Import QArith ZArith List Bool Lia Lqa Qabs Qround.
From stdpp Require Import base list strings gmap.

Open Scope Q_scope.

(* ===================================================================== *)
(** * Part I: definitions                                                 *)
(* ===================================================================== *)

(** ** SIMD_TYPES.h / SIMD_DEFINITIONS.h: the lane operations *)
Module SIMD.

(** The hardware square root ([_mm_sqrt_pd], [_mm256_sqrt_pd]) has no exact
    counterpart on rationals; it is an operation the development is
    parametric in. *)
Class SqrtOp := vcp_simd_sqrt : Q -> Q.

Definition vcp_simd_zerov : Q := 0.
Definition vcp_simd_set1 (a : Q) : Q := a.
Definition vcp_simd_add (a b : Q) : Q := a + b.
Definition vcp_simd_sub (a b : Q) : Q := a - b.
Definition vcp_simd_mul (a b : Q) : Q := a * b.
Definition vcp_simd_div (a b : Q) : Q := a / b.

(** Modelled from the spec: the header that declares the fused operations
    (SIMD_TYPES.h) is not among the sources.  Their meaning is the one the
    call sites document: [vcp_simd_fnma(five, re1re2perr2, e1e2)] is
    "-five*re1+e1e2", [vcp_simd_fnma(part3, invdr, minus_partialRijInvdr)]
    is "minus_pRI - part3*infdr". *)
Definition vcp_simd_fma (a b c : Q) : Q := a * b + c.
Definition vcp_simd_fms (a b c : Q) : Q := a * b - c.
Definition vcp_simd_fnma (a b c : Q) : Q := c - a * b.
Definition vcp_simd_scalProd (a1 a2 a3 b1 b2 b3 : Q) : Q :=
  a1 * b1 + a2 * b2 + a3 * b3.

(** A mask lane: all 64 bits set, or none. *)
Definition vcp_simd_ones : Z := Z.ones 64.
Definition vcp_mask_zero : Z := 0%Z.
Definition vcp_simd_or (a b : Z) : Z := Z.lor a b.

(** Modelled from the spec: [vcp_simd_applymask] and [vcp_simd_movemask]
    are declared in the missing SIMD_TYPES.h.  The spec (4.4, numeric
    semantics): "perform the unmasked reciprocal, then apply the mask
    before any subsequent use so that the division's output for a
    masked-out lane is discarded"; a mask is an and with the bit pattern,
    so the all-zero pattern yields 0.0 and the all-ones pattern yields the
    value itself (other patterns are never produced). *)
Definition vcp_simd_applymask (x : Q) (mask : Z) : Q :=
  if Z.eqb mask 0 then 0 else x.

(** [_mm_movemask_pd] collects the sign bit of every lane; here: of the
    one lane. *)
Definition vcp_simd_movemask (mask : Z) : Z :=
  if Z.testbit mask 63 then 1%Z else 0%Z.

(** [hSum_Add_Store(location, a)]: [*location += horizontal sum of a]. *)
Definition hSum_Add (old a : Q) : Q := old + a.

(** Comparison of doubles. *)
Definition Qlt_bool (a b : Q) : bool := negb (Qle_bool b a).

(** A square root to run the kernels with: Heron's iteration, eight steps
    from [(x + 1) / 2] (0 for a non-positive argument). *)
Fixpoint heron (n : nat) (x g : Q) : Q :=
  match n with
  | O => g
  | S n' => heron n' x (Qred ((g + x / g) / 2))
  end.

Definition heron_sqrt : SqrtOp :=
  fun x => if Qle_bool x 0 then 0 else heron 8 x (Qred ((x + 1) / 2)).

End SIMD.

(** ** VectorizedCellProcessor.cpp: the pair kernels ([_loopBody...]) *)
Module Kernels.
Import SIMD.

Definition V3 : Type := Q * Q * Q.

(** The constants declared before the kernels (lines 338-349). *)
Definition zero : Q := vcp_simd_zerov.
Definition one : Q := vcp_simd_set1 1.
Definition two : Q := vcp_simd_set1 2.
Definition three : Q := vcp_simd_set1 3.
Definition four : Q := vcp_simd_set1 4.
Definition five : Q := vcp_simd_set1 5.
Definition six : Q := vcp_simd_set1 6.
Definition ten : Q := vcp_simd_set1 10.
Definition _05 : Q := vcp_simd_set1 (1 # 2).
Definition _075 : Q := vcp_simd_set1 (3 # 4).
Definition _1pt5 : Q := vcp_simd_set1 (3 # 2).
Definition _15 : Q := vcp_simd_set1 15.

(** [_loopBodyLJ<calculateMacroscopic>]: returns the written force
    [(f_x, f_y, f_z)] and the updated [sum_upot6lj], [sum_virial]. *)
Definition _loopBodyLJ (calculateMacroscopic : bool)
    (m1_r_x m1_r_y m1_r_z r1_x r1_y r1_z : Q)
    (m2_r_x m2_r_y m2_r_z r2_x r2_y r2_z : Q)
    (sum_upot6lj sum_virial : Q) (forceMask : Z)
    (eps_24 sig2 shift6 : Q) : V3 * Q * Q :=
  let c_dx := r1_x - r2_x in
  let c_dy := r1_y - r2_y in
  let c_dz := r1_z - r2_z in
  let c_r2 := vcp_simd_scalProd c_dx c_dy c_dz c_dx c_dy c_dz in
  let r2_inv_unmasked := one / c_r2 in
  let r2_inv := vcp_simd_applymask r2_inv_unmasked forceMask in
  let lj2 := sig2 * r2_inv in
  let lj4 := lj2 * lj2 in
  let lj6 := lj4 * lj2 in
  let lj12 := lj6 * lj6 in
  let lj12m6 := lj12 - lj6 in
  let eps24r2inv := eps_24 * r2_inv in
  let lj12lj12m6 := lj12 + lj12m6 in
  let scale := eps24r2inv * lj12lj12m6 in
  let f_x := c_dx * scale in
  let f_y := c_dy * scale in
  let f_z := c_dz * scale in
  let m_dx := m1_r_x - m2_r_x in
  let m_dy := m1_r_y - m2_r_y in
  let m_dz := m1_r_z - m2_r_z in
  if calculateMacroscopic then
    let upot_sh := vcp_simd_fma eps_24 lj12m6 shift6 in
    let upot_masked := vcp_simd_applymask upot_sh forceMask in
    let sum_upot6lj := sum_upot6lj + upot_masked in
    let virial := vcp_simd_scalProd m_dx m_dy m_dz f_x f_y f_z in
    let sum_virial := sum_virial + virial in
    ((f_x, f_y, f_z), sum_upot6lj, sum_virial)
  else
    ((f_x, f_y, f_z), sum_upot6lj, sum_virial).


(** [_loopBodyCharge<calculateMacroscopic>]: force, [sum_upotXpoles],
    [sum_virial]. *)
Definition _loopBodyCharge `{SqrtOp} (calculateMacroscopic : bool)
    (m1_r_x m1_r_y m1_r_z r1_x r1_y r1_z qii : Q)
    (m2_r_x m2_r_y m2_r_z r2_x r2_y r2_z qjj : Q)
    (sum_upotXpoles sum_virial : Q) (forceMask : Z) : V3 * Q * Q :=
  let c_dx := r1_x - r2_x in
  let c_dy := r1_y - r2_y in
  let c_dz := r1_z - r2_z in
  let c_dr2 := vcp_simd_scalProd c_dx c_dy c_dz c_dx c_dy c_dz in
  let c_dr2_inv_unmasked := one / c_dr2 in
  let c_dr2_inv := vcp_simd_applymask c_dr2_inv_unmasked forceMask in
  let c_dr_inv := vcp_simd_sqrt c_dr2_inv in
  let q1q2per4pie0 := qii * qjj in
  let upot := q1q2per4pie0 * c_dr_inv in
  let fac := upot * c_dr2_inv in
  let f_x := c_dx * fac in
  let f_y := c_dy * fac in
  let f_z := c_dz * fac in
  let m_dx := m1_r_x - m2_r_x in
  let m_dy := m1_r_y - m2_r_y in
  let m_dz := m1_r_z - m2_r_z in
  if calculateMacroscopic then
    let sum_upotXpoles := sum_upotXpoles + upot in
    let virial := vcp_simd_scalProd m_dx m_dy m_dz f_x f_y f_z in
    let sum_virial := sum_virial + virial in
    ((f_x, f_y, f_z), sum_upotXpoles, sum_virial)
  else
    ((f_x, f_y, f_z), sum_upotXpoles, sum_virial).

(** [_loopBodyChargeDipole<calculateMacroscopic>]: force, torque on the
    dipole, [sum_upotXpoles], [sum_virial].  The body never reads
    [switched]. *)
Definition _loopBodyChargeDipole `{SqrtOp} (calculateMacroscopic : bool)
    (m1_r_x m1_r_y m1_r_z r1_x r1_y r1_z q : Q)
    (m2_r_x m2_r_y m2_r_z r2_x r2_y r2_z e_x e_y e_z p : Q)
    (sum_upotXpoles sum_virial : Q) (forceMask : Z) (switched : Z)
    : V3 * V3 * Q * Q :=
  let dx := r1_x - r2_x in
  let dy := r1_y - r2_y in
  let dz := r1_z - r2_z in
  let dr2 := vcp_simd_scalProd dx dy dz dx dy dz in
  let dr2_inv_unmasked := one / dr2 in
  let dr2_inv := vcp_simd_applymask dr2_inv_unmasked forceMask in
  let dr_inv := vcp_simd_sqrt dr2_inv in
  let dr3_inv := dr2_inv * dr_inv in
  let re := vcp_simd_scalProd dx dy dz e_x e_y e_z in
  let qpper4pie0 := q * p in
  let qpper4pie0dr3 := qpper4pie0 * dr3_inv in
  let fac := dr2_inv * three * re in
  let f_x := qpper4pie0dr3 * vcp_simd_fnma dx fac e_x in
  let f_y := qpper4pie0dr3 * vcp_simd_fnma dy fac e_y in
  let f_z := qpper4pie0dr3 * vcp_simd_fnma dz fac e_z in
  let m_dx := m1_r_x - m2_r_x in
  let m_dy := m1_r_y - m2_r_y in
  let m_dz := m1_r_z - m2_r_z in
  let '(sum_upotXpoles, sum_virial) :=
    if calculateMacroscopic then
      let minusUpot := qpper4pie0dr3 * re in
      let sum_upotXpoles := sum_upotXpoles - minusUpot in
      let virial := vcp_simd_scalProd m_dx m_dy m_dz f_x f_y f_z in
      (sum_upotXpoles, vcp_simd_add sum_virial virial)
    else (sum_upotXpoles, sum_virial) in
  let e_x_dy_minus_e_y_dx := vcp_simd_fms e_x dy (e_y * dx) in
  let e_y_dz_minus_e_z_dy := vcp_simd_fms e_y dz (e_z * dy) in
  let e_z_dx_minus_e_x_dz := vcp_simd_fms e_z dx (e_x * dz) in
  let M_x := qpper4pie0dr3 * e_y_dz_minus_e_z_dy in
  let M_y := qpper4pie0dr3 * e_z_dx_minus_e_x_dz in
  let M_z := qpper4pie0dr3 * e_x_dy_minus_e_y_dx in
  ((f_x, f_y, f_z), (M_x, M_y, M_z), sum_upotXpoles, sum_virial).

(** [_loopBodyDipole<calculateMacroscopic>]: force, torque on either
    dipole, [sum_upotXpoles], [sum_virial], [sum_myRF]. *)
Definition _loopBodyDipole `{SqrtOp} (calculateMacroscopic : bool)
    (m1_r_x m1_r_y m1_r_z r1_x r1_y r1_z eii_x eii_y eii_z pii : Q)
    (m2_r_x m2_r_y m2_r_z r2_x r2_y r2_z ejj_x ejj_y ejj_z pjj : Q)
    (sum_upotXpoles sum_virial sum_myRF : Q) (forceMask : Z)
    (epsRFInvrc3 : Q) : V3 * V3 * V3 * Q * Q * Q :=
  let dx := r1_x - r2_x in
  let dy := r1_y - r2_y in
  let dz := r1_z - r2_z in
  let dr2 := vcp_simd_scalProd dx dy dz dx dy dz in
  let dr2_inv_unmasked := one / dr2 in
  let dr2_inv := vcp_simd_applymask dr2_inv_unmasked forceMask in
  let dr_inv := vcp_simd_sqrt dr2_inv in
  let dr2three_inv := three * dr2_inv in
  let p1p2 := vcp_simd_applymask (pii * pjj) forceMask in
  let p1p2per4pie0 := p1p2 in
  let rffac := p1p2 * epsRFInvrc3 in
  let p1p2per4pie0r3 := p1p2per4pie0 * dr_inv * dr2_inv in
  let p1p2threeper4pie0r5 := p1p2per4pie0r3 * dr2three_inv in
  let e1e2 := vcp_simd_scalProd eii_x eii_y eii_z ejj_x ejj_y ejj_z in
  let re1 := vcp_simd_scalProd dx dy dz eii_x eii_y eii_z in
  let re2 := vcp_simd_scalProd dx dy dz ejj_x ejj_y ejj_z in
  let re1threeperr2 := re1 * dr2three_inv in
  let re2threeperr2 := re2 * dr2three_inv in
  let re1re2perr2 := dr2_inv * re1 * re2 in
  let e1e2minus5re1re2perr2 := vcp_simd_fnma five re1re2perr2 e1e2 in
  let f_x := p1p2threeper4pie0r5
             * vcp_simd_scalProd dx eii_x ejj_x e1e2minus5re1re2perr2 re2 re1 in
  let f_y := p1p2threeper4pie0r5
             * vcp_simd_scalProd dy eii_y ejj_y e1e2minus5re1re2perr2 re2 re1 in
  let f_z := p1p2threeper4pie0r5
             * vcp_simd_scalProd dz eii_z ejj_z e1e2minus5re1re2perr2 re2 re1 in
  let m_dx := m1_r_x - m2_r_x in
  let m_dy := m1_r_y - m2_r_y in
  let m_dz := m1_r_z - m2_r_z in
  let '(sum_upotXpoles, sum_virial, sum_myRF) :=
    if calculateMacroscopic then
      let upot := p1p2per4pie0r3 * vcp_simd_fnma three re1re2perr2 e1e2 in
      let sum_upotXpoles := sum_upotXpoles + upot in
      let virial := vcp_simd_scalProd m_dx m_dy m_dz f_x f_y f_z in
      let sum_virial := sum_virial + virial in
      (sum_upotXpoles, sum_virial, vcp_simd_fma rffac e1e2 sum_myRF)
    else (sum_upotXpoles, sum_virial, sum_myRF) in
  let e1_x_e2_y_minus_e1_y_e2_x := vcp_simd_fms eii_x ejj_y (eii_y * ejj_x) in
  let e1_y_e2_z_minus_e1_z_e2_y := vcp_simd_fms eii_y ejj_z (eii_z * ejj_y) in
  let e1_z_e2_x_minus_e1_x_e2_z := vcp_simd_fms eii_z ejj_x (eii_x * ejj_z) in
  let M1_x := vcp_simd_fma p1p2per4pie0r3
                (vcp_simd_fms re2threeperr2 (vcp_simd_fms eii_y dz (eii_z * dy))
                   e1_y_e2_z_minus_e1_z_e2_y)
                (rffac * e1_y_e2_z_minus_e1_z_e2_y) in
  let M1_y := vcp_simd_fma p1p2per4pie0r3
                (vcp_simd_fms re2threeperr2 (vcp_simd_fms eii_z dx (eii_x * dz))
                   e1_z_e2_x_minus_e1_x_e2_z)
                (rffac * e1_z_e2_x_minus_e1_x_e2_z) in
  let M1_z := vcp_simd_fma p1p2per4pie0r3
                (vcp_simd_fms re2threeperr2 (vcp_simd_fms eii_x dy (eii_y * dx))
                   e1_x_e2_y_minus_e1_y_e2_x)
                (rffac * e1_x_e2_y_minus_e1_y_e2_x) in
  let M2_x := vcp_simd_fms p1p2per4pie0r3
                (vcp_simd_fma re1threeperr2 (vcp_simd_fms ejj_y dz (ejj_z * dy))
                   e1_y_e2_z_minus_e1_z_e2_y)
                (rffac * e1_y_e2_z_minus_e1_z_e2_y) in
  let M2_y := vcp_simd_fms p1p2per4pie0r3
                (vcp_simd_fma re1threeperr2 (vcp_simd_fms ejj_z dx (ejj_x * dz))
                   e1_z_e2_x_minus_e1_x_e2_z)
                (rffac * e1_z_e2_x_minus_e1_x_e2_z) in
  let M2_z := vcp_simd_fms p1p2per4pie0r3
                (vcp_simd_fma re1threeperr2 (vcp_simd_fms ejj_x dy (ejj_y * dx))
                   e1_x_e2_y_minus_e1_y_e2_x)
                (rffac * e1_x_e2_y_minus_e1_y_e2_x) in
  ((f_x, f_y, f_z), (M1_x, M1_y, M1_z), (M2_x, M2_y, M2_z),
   sum_upotXpoles, sum_virial, sum_myRF).

(** [_loopBodyChargeQuadrupole<calculateMacroscopic>]: force, torque on
    the quadrupole, [sum_upotXpoles], [sum_virial]. *)
Definition _loopBodyChargeQuadrupole `{SqrtOp} (calculateMacroscopic : bool)
    (m1_r_x m1_r_y m1_r_z r1_x r1_y r1_z q : Q)
    (m2_r_x m2_r_y m2_r_z r2_x r2_y r2_z ejj_x ejj_y ejj_z m : Q)
    (sum_upotXpoles sum_virial : Q) (forceMask : Z) (switched : Z)
    : V3 * V3 * Q * Q :=
  let c_dx := r1_x - r2_x in
  let c_dy := r1_y - r2_y in
  let c_dz := r1_z - r2_z in
  let c_dr2 := vcp_simd_scalProd c_dx c_dy c_dz c_dx c_dy c_dz in
  let invdr2_unmasked := one / c_dr2 in
  let invdr2 := vcp_simd_applymask invdr2_unmasked forceMask in
  let invdr := vcp_simd_sqrt invdr2 in
  let qQ05per4pie0 := _05 * q * m in
  let costj := vcp_simd_scalProd ejj_x ejj_y ejj_z c_dx c_dy c_dz in
  let costj := costj * invdr in
  let qQinv4dr3 := qQ05per4pie0 * invdr * invdr2 in
  let part1 := three * costj * costj in
  let upot := qQinv4dr3 * (part1 - one) in
  let minus_partialRijInvdr := three * upot * invdr2 in
  let partialTjInvdr := six * costj * qQinv4dr3 * invdr in
  let fac := vcp_simd_fma (costj * partialTjInvdr) invdr minus_partialRijInvdr in
  let f_x := vcp_simd_fms fac c_dx (partialTjInvdr * ejj_x) in
  let f_y := vcp_simd_fms fac c_dy (partialTjInvdr * ejj_y) in
  let f_z := vcp_simd_fms fac c_dz (partialTjInvdr * ejj_z) in
  let m_dx := m1_r_x - m2_r_x in
  let m_dy := m1_r_y - m2_r_y in
  let m_dz := m1_r_z - m2_r_z in
  let '(sum_upotXpoles, sum_virial) :=
    if calculateMacroscopic then
      let sum_upotXpoles := sum_upotXpoles + upot in
      let virial := vcp_simd_scalProd m_dx m_dy m_dz f_x f_y f_z in
      (sum_upotXpoles, sum_virial + virial)
    else (sum_upotXpoles, sum_virial) in
  let minuseXrij_x := vcp_simd_fms ejj_z c_dy (ejj_y * c_dz) in
  let minuseXrij_y := vcp_simd_fms ejj_x c_dz (ejj_z * c_dx) in
  let minuseXrij_z := vcp_simd_fms ejj_y c_dx (ejj_x * c_dy) in
  let M_x := partialTjInvdr * minuseXrij_x in
  let M_y := partialTjInvdr * minuseXrij_y in
  let M_z := partialTjInvdr * minuseXrij_z in
  ((f_x, f_y, f_z), (M_x, M_y, M_z), sum_upotXpoles, sum_virial).

(** [_loopBodyDipoleQuadrupole<calculateMacroscopic>]: force, torque on
    the dipole ([M1]) and on the quadrupole ([M2]), [sum_upotXpoles],
    [sum_virial]. *)
Definition _loopBodyDipoleQuadrupole `{SqrtOp} (calculateMacroscopic : bool)
    (m1_r_x m1_r_y m1_r_z r1_x r1_y r1_z eii_x eii_y eii_z p : Q)
    (m2_r_x m2_r_y m2_r_z r2_x r2_y r2_z ejj_x ejj_y ejj_z m : Q)
    (sum_upotXpoles sum_virial : Q) (forceMask : Z) (switched : Z)
    : V3 * V3 * V3 * Q * Q :=
  let c_dx := r1_x - r2_x in
  let c_dy := r1_y - r2_y in
  let c_dz := r1_z - r2_z in
  let c_dr2 := vcp_simd_scalProd c_dx c_dy c_dz c_dx c_dy c_dz in
  let invdr2_unmasked := one / c_dr2 in
  let invdr2 := vcp_simd_applymask invdr2_unmasked forceMask in
  let invdr := vcp_simd_sqrt invdr2 in
  let myqfac := _1pt5 * p * m * invdr2 * invdr2 in
  let costi := vcp_simd_scalProd eii_x eii_y eii_z c_dx c_dy c_dz in
  let costi := costi * invdr in
  let costj := vcp_simd_scalProd ejj_x ejj_y ejj_z c_dx c_dy c_dz in
  let costj := costj * invdr in
  let cos2tj := costj * costj in
  let cosgij := vcp_simd_scalProd eii_x eii_y eii_z ejj_x ejj_y ejj_z in
  let _5cos2tjminus1 := vcp_simd_fms five cos2tj one in
  let _2costj := two * costj in
  let part1 := costi * _5cos2tjminus1 in
  let part2 := _2costj * cosgij in
  let upot := myqfac * (part2 - part1) in
  let myqfacXinvdr := myqfac * invdr in
  let minus_partialRijInvdr := four * upot * invdr2 in
  let minus_partialTiInvdr := myqfacXinvdr * _5cos2tjminus1 in
  let part1 := vcp_simd_fms five (costi * costj) cosgij in
  let minus_partialTjInvdr := myqfacXinvdr * two * part1 in
  let partialGij := myqfac * _2costj in
  let part3 := vcp_simd_fma costi minus_partialTiInvdr (costj * minus_partialTjInvdr) in
  let fac := vcp_simd_fnma part3 invdr minus_partialRijInvdr in
  let f_x := vcp_simd_scalProd fac minus_partialTiInvdr minus_partialTjInvdr
               c_dx eii_x ejj_x in
  let f_y := vcp_simd_scalProd fac minus_partialTiInvdr minus_partialTjInvdr
               c_dy eii_y ejj_y in
  let f_z := vcp_simd_scalProd fac minus_partialTiInvdr minus_partialTjInvdr
               c_dz eii_z ejj_z in
  let m_dx := m1_r_x - m2_r_x in
  let m_dy := m1_r_y - m2_r_y in
  let m_dz := m1_r_z - m2_r_z in
  let '(sum_upotXpoles, sum_virial) :=
    if calculateMacroscopic then
      let sum_upotXpoles := sum_upotXpoles + upot in
      let virial := vcp_simd_scalProd m_dx m_dy m_dz f_x f_y f_z in
      (sum_upotXpoles, sum_virial + virial)
    else (sum_upotXpoles, sum_virial) in
  let eii_x_ejj_y_minus_eii_y_ejj_x := vcp_simd_fms eii_x ejj_y (eii_y * ejj_x) in
  let eii_y_ejj_z_minus_eii_z_ejj_y := vcp_simd_fms eii_y ejj_z (eii_z * ejj_y) in
  let eii_z_ejj_x_minus_eii_x_ejj_z := vcp_simd_fms eii_z ejj_x (eii_x * ejj_z) in
  let partialGij_eiXej_x := partialGij * eii_y_ejj_z_minus_eii_z_ejj_y in
  let partialGij_eiXej_y := partialGij * eii_z_ejj_x_minus_eii_x_ejj_z in
  let partialGij_eiXej_z := partialGij * eii_x_ejj_y_minus_eii_y_ejj_x in
  let eXrij_x := vcp_simd_fms eii_y c_dz (eii_z * c_dy) in
  let eXrij_y := vcp_simd_fms eii_z c_dx (eii_x * c_dz) in
  let eXrij_z := vcp_simd_fms eii_x c_dy (eii_y * c_dx) in
  let M1_x := vcp_simd_fms minus_partialTiInvdr eXrij_x partialGij_eiXej_x in
  let M1_y := vcp_simd_fms minus_partialTiInvdr eXrij_y partialGij_eiXej_y in
  let M1_z := vcp_simd_fms minus_partialTiInvdr eXrij_z partialGij_eiXej_z in
  let eXrij_x := vcp_simd_fms ejj_y c_dz (ejj_z * c_dy) in
  let eXrij_y := vcp_simd_fms ejj_z c_dx (ejj_x * c_dz) in
  let eXrij_z := vcp_simd_fms ejj_x c_dy (ejj_y * c_dx) in
  let M2_x := vcp_simd_fma minus_partialTjInvdr eXrij_x partialGij_eiXej_x in
  let M2_y := vcp_simd_fma minus_partialTjInvdr eXrij_y partialGij_eiXej_y in
  let M2_z := vcp_simd_fma minus_partialTjInvdr eXrij_z partialGij_eiXej_z in
  ((f_x, f_y, f_z), (M1_x, M1_y, M1_z), (M2_x, M2_y, M2_z),
   sum_upotXpoles, sum_virial).

(** [_loopBodyQuadrupole<calculateMacroscopic>]: force, torque on either
    quadrupole, [sum_upotXpoles], [sum_virial]. *)
Definition _loopBodyQuadrupole `{SqrtOp} (calculateMacroscopic : bool)
    (m1_r_x m1_r_y m1_r_z r1_x r1_y r1_z eii_x eii_y eii_z mii : Q)
    (m2_r_x m2_r_y m2_r_z r2_x r2_y r2_z ejj_x ejj_y ejj_z mjj : Q)
    (sum_upotXpoles sum_virial : Q) (forceMask : Z)
    : V3 * V3 * V3 * Q * Q :=
  let c_dx := r1_x - r2_x in
  let c_dy := r1_y - r2_y in
  let c_dz := r1_z - r2_z in
  let c_dr2 := vcp_simd_scalProd c_dx c_dy c_dz c_dx c_dy c_dz in
  let invdr2_unmasked := one / c_dr2 in
  let invdr2 := vcp_simd_applymask invdr2_unmasked forceMask in
  let invdr := vcp_simd_sqrt invdr2 in
  let qfac := _075 * invdr in
  let qfac := qfac * (mii * mjj) in
  let qfac := qfac * (invdr2 * invdr2) in
  let costi := vcp_simd_scalProd eii_x eii_y eii_z c_dx c_dy c_dz in
  let costi := costi * invdr in
  let costj := vcp_simd_scalProd ejj_x ejj_y ejj_z c_dx c_dy c_dz in
  let costj := costj * invdr in
  let cos2ti := costi * costi in
  let cos2tj := costj * costj in
  let cosgij := vcp_simd_scalProd eii_x eii_y eii_z ejj_x ejj_y ejj_z in
  let term := five * (costi * costj) in
  let term := cosgij - term in
  let part2 := _15 * cos2ti * cos2tj in
  let part3 := two * term * term in
  let upot := vcp_simd_fma five (cos2ti + cos2tj) part2 in
  let upot := (one + part3) - upot in
  let upot := qfac * upot in
  let minus_partialRijInvdr := five * upot * invdr2 in
  let part1 := qfac * ten * invdr in
  let part2 := two * term in
  let part3 := three * costi * cos2tj in
  let part4 := costi + vcp_simd_fma part2 costj part3 in
  let minus_partialTiInvdr := part1 * part4 in
  let part3 := three * costj * cos2ti in
  let part4 := costj + vcp_simd_fma part2 costi part3 in
  let minus_partialTjInvdr := part1 * part4 in
  let partialGij := qfac * four * term in
  let part1 := minus_partialTiInvdr * costi in
  let part2 := minus_partialTjInvdr * costj in
  let fac := vcp_simd_fnma (part1 + part2) invdr minus_partialRijInvdr in
  let f_x := vcp_simd_scalProd fac minus_partialTiInvdr minus_partialTjInvdr
               c_dx eii_x ejj_x in
  let f_y := vcp_simd_scalProd fac minus_partialTiInvdr minus_partialTjInvdr
               c_dy eii_y ejj_y in
  let f_z := vcp_simd_scalProd fac minus_partialTiInvdr minus_partialTjInvdr
               c_dz eii_z ejj_z in
  let m_dx := m1_r_x - m2_r_x in
  let m_dy := m1_r_y - m2_r_y in
  let m_dz := m1_r_z - m2_r_z in
  let '(sum_upotXpoles, sum_virial) :=
    if calculateMacroscopic then
      let sum_upotXpoles := sum_upotXpoles + upot in
      let virial := vcp_simd_scalProd m_dx m_dy m_dz f_x f_y f_z in
      (sum_upotXpoles, sum_virial + virial)
    else (sum_upotXpoles, sum_virial) in
  let eii_x_ejj_y_minus_eii_y_ejj_x := vcp_simd_fms eii_x ejj_y (eii_y * ejj_x) in
  let eii_y_ejj_z_minus_eii_z_ejj_y := vcp_simd_fms eii_y ejj_z (eii_z * ejj_y) in
  let eii_z_ejj_x_minus_eii_x_ejj_z := vcp_simd_fms eii_z ejj_x (eii_x * ejj_z) in
  let partialGij_eiXej_x := partialGij * eii_y_ejj_z_minus_eii_z_ejj_y in
  let partialGij_eiXej_y := partialGij * eii_z_ejj_x_minus_eii_x_ejj_z in
  let partialGij_eiXej_z := partialGij * eii_x_ejj_y_minus_eii_y_ejj_x in
  let eXrij_x := vcp_simd_fms eii_y c_dz (eii_z * c_dy) in
  let eXrij_y := vcp_simd_fms eii_z c_dx (eii_x * c_dz) in
  let eXrij_z := vcp_simd_fms eii_x c_dy (eii_y * c_dx) in
  let Mii_x := vcp_simd_fms minus_partialTiInvdr eXrij_x partialGij_eiXej_x in
  let Mii_y := vcp_simd_fms minus_partialTiInvdr eXrij_y partialGij_eiXej_y in
  let Mii_z := vcp_simd_fms minus_partialTiInvdr eXrij_z partialGij_eiXej_z in
  let eXrij_x := vcp_simd_fms ejj_y c_dz (ejj_z * c_dy) in
  let eXrij_y := vcp_simd_fms ejj_z c_dx (ejj_x * c_dz) in
  let eXrij_z := vcp_simd_fms ejj_x c_dy (ejj_y * c_dx) in
  let Mjj_x := vcp_simd_fma minus_partialTjInvdr eXrij_x partialGij_eiXej_x in
  let Mjj_y := vcp_simd_fma minus_partialTjInvdr eXrij_y partialGij_eiXej_y in
  let Mjj_z := vcp_simd_fma minus_partialTjInvdr eXrij_z partialGij_eiXej_z in
  ((f_x, f_y, f_z), (Mii_x, Mii_y, Mii_z), (Mjj_x, Mjj_y, Mjj_z),
   sum_upotXpoles, sum_virial).

End Kernels.

(** ** VectorizedCellProcessor.cpp: cells, dist lookup, pair traversal *)
Module VCP.
Import SIMD Kernels.

#[global] Instance Q_inhabited : Inhabited Q := populate 0.

(** *** CellDataSoA: the structure of arrays of one cell

    The header CellDataSoA.h is not among the sources; the arrays are the
    ones VectorizedCellProcessor.cpp reads and writes.  An array of the
    struct is named by a constructor: [Comp _ljc_f ax_x] is [_ljc_f_x],
    [Comp _dipoles_M ax_z] is [_dipoles_M_z], and so on. *)
Inductive Axis := ax_x | ax_y | ax_z.

Inductive Vec3Array :=
| _mol_pos
| _ljc_m_r | _ljc_r | _ljc_f
| _charges_m_r | _charges_r | _charges_f
| _dipoles_m_r | _dipoles_r | _dipoles_f | _dipoles_e | _dipoles_M
| _quadrupoles_m_r | _quadrupoles_r | _quadrupoles_f
| _quadrupoles_e | _quadrupoles_M.

Inductive DoubleArray :=
| Comp (a : Vec3Array) (c : Axis)
| _charges_q | _dipoles_p | _quadrupoles_m.

Inductive MaskArray :=
| _ljc_dist_lookup | _charges_dist_lookup
| _dipoles_dist_lookup | _quadrupoles_dist_lookup.

#[global] Instance Axis_eq_dec : EqDecision Axis.
Proof. solve_decision. Defined.
#[global] Instance Vec3Array_eq_dec : EqDecision Vec3Array.
Proof. solve_decision. Defined.
#[global] Instance DoubleArray_eq_dec : EqDecision DoubleArray.
Proof. solve_decision. Defined.
#[global] Instance MaskArray_eq_dec : EqDecision MaskArray.
Proof. solve_decision. Defined.

Record CellDataSoA := mkCellDataSoA {
  _mol_num : nat;
  _ljc_num : nat;
  _charges_num : nat;
  _dipoles_num : nat;
  _quadrupoles_num : nat;
  _mol_ljc_num : list nat;
  _mol_charges_num : list nat;
  _mol_dipoles_num : list nat;
  _mol_quadrupoles_num : list nat;
  _ljc_id : list nat;
  doubles : DoubleArray -> list Q;
  masks : MaskArray -> list Z
}.

Definition empty_soa : CellDataSoA :=
  mkCellDataSoA 0 0 0 0 0 [] [] [] [] [] (fun _ => []) (fun _ => []).

#[global] Instance CellDataSoA_inhabited : Inhabited CellDataSoA :=
  populate empty_soa.

(** [array[j] = v] on one array of the struct. *)
Definition set_double (soa : CellDataSoA) (a : DoubleArray) (j : nat) (v : Q)
    : CellDataSoA :=
  mkCellDataSoA (_mol_num soa) (_ljc_num soa) (_charges_num soa)
    (_dipoles_num soa) (_quadrupoles_num soa)
    (_mol_ljc_num soa) (_mol_charges_num soa) (_mol_dipoles_num soa)
    (_mol_quadrupoles_num soa) (_ljc_id soa)
    (fun a' => if decide (a' = a) then <[j := v]> (doubles soa a')
               else doubles soa a')
    (masks soa).

Definition set_mask (soa : CellDataSoA) (a : MaskArray) (j : nat) (v : Z)
    : CellDataSoA :=
  mkCellDataSoA (_mol_num soa) (_ljc_num soa) (_charges_num soa)
    (_dipoles_num soa) (_quadrupoles_num soa)
    (_mol_ljc_num soa) (_mol_charges_num soa) (_mol_dipoles_num soa)
    (_mol_quadrupoles_num soa) (_ljc_id soa)
    (doubles soa)
    (fun a' => if decide (a' = a) then <[j := v]> (masks soa a')
               else masks soa a').

(** *** The memory: cells reach their SoA through a pointer

    [c.getCellDataSoA()] is a pointer; [processCell] hands the same
    pointer to [_calculatePairs] twice.  A [Heap] keeps the SoAs, a
    pointer is an index into it, and every load and store of the
    traversal goes through the heap, so that the two arguments of
    [_calculatePairs] may alias.  A read outside an array yields 0.0 (the
    arrays are padded with zeros), a store outside is dropped. *)
Abbreviation Heap := (list CellDataSoA).

Definition soa_at (h : Heap) (p : nat) : CellDataSoA := h !!! p.

Definition vcp_simd_load (h : Heap) (p : nat) (a : DoubleArray) (j : nat) : Q :=
  doubles (soa_at h p) a !!! j.

Definition vcp_simd_store (h : Heap) (p : nat) (a : DoubleArray) (j : nat)
    (v : Q) : Heap :=
  <[p := set_double (soa_at h p) a j v]> h.

Definition load_mask (h : Heap) (p : nat) (a : MaskArray) (j : nat) : Z :=
  masks (soa_at h p) a !!! j.

Definition store_mask (h : Heap) (p : nat) (a : MaskArray) (j : nat) (v : Z)
    : Heap :=
  <[p := set_mask (soa_at h p) a j v]> h.

(** The three loads [vcp_simd_load(a_x + j)], [(a_y + j)], [(a_z + j)]
    (or the three broadcasts of a source site). *)
Definition load3 (h : Heap) (p : nat) (a : Vec3Array) (j : nat) : V3 :=
  (vcp_simd_load h p (Comp a ax_x) j,
   vcp_simd_load h p (Comp a ax_y) j,
   vcp_simd_load h p (Comp a ax_z) j).

(** [vcp_simd_load_add_store(a_x + j, v_x)] and its y, z siblings. *)
Definition vcp_simd_load_add_store3 (h : Heap) (p : nat) (a : Vec3Array)
    (j : nat) (v : V3) : Heap :=
  let '(v_x, v_y, v_z) := v in
  let h := vcp_simd_store h p (Comp a ax_x) j
             (vcp_simd_add (vcp_simd_load h p (Comp a ax_x) j) v_x) in
  let h := vcp_simd_store h p (Comp a ax_y) j
             (vcp_simd_add (vcp_simd_load h p (Comp a ax_y) j) v_y) in
  vcp_simd_store h p (Comp a ax_z) j
    (vcp_simd_add (vcp_simd_load h p (Comp a ax_z) j) v_z).

(** [vcp_simd_load_sub_store(a_x + j, v_x)] and its y, z siblings. *)
Definition vcp_simd_load_sub_store3 (h : Heap) (p : nat) (a : Vec3Array)
    (j : nat) (v : V3) : Heap :=
  let '(v_x, v_y, v_z) := v in
  let h := vcp_simd_store h p (Comp a ax_x) j
             (vcp_simd_sub (vcp_simd_load h p (Comp a ax_x) j) v_x) in
  let h := vcp_simd_store h p (Comp a ax_y) j
             (vcp_simd_sub (vcp_simd_load h p (Comp a ax_y) j) v_y) in
  vcp_simd_store h p (Comp a ax_z) j
    (vcp_simd_sub (vcp_simd_load h p (Comp a ax_z) j) v_z).

(** [hSum_Add_Store(a_x + i, sum_x)] and its y, z siblings. *)
Definition hSum_Add_Store3 (h : Heap) (p : nat) (a : Vec3Array) (i : nat)
    (sum : V3) : Heap :=
  let '(s_x, s_y, s_z) := sum in
  let h := vcp_simd_store h p (Comp a ax_x) i
             (hSum_Add (vcp_simd_load h p (Comp a ax_x) i) s_x) in
  let h := vcp_simd_store h p (Comp a ax_y) i
             (hSum_Add (vcp_simd_load h p (Comp a ax_y) i) s_y) in
  vcp_simd_store h p (Comp a ax_z) i
    (hSum_Add (vcp_simd_load h p (Comp a ax_z) i) s_z).

Definition v3_zero : V3 := (vcp_simd_zerov, vcp_simd_zerov, vcp_simd_zerov).
Definition v3_add (a b : V3) : V3 :=
  let '(a_x, a_y, a_z) := a in let '(b_x, b_y, b_z) := b in
  (vcp_simd_add a_x b_x, vcp_simd_add a_y b_y, vcp_simd_add a_z b_z).
Definition v3_sub (a b : V3) : V3 :=
  let '(a_x, a_y, a_z) := a in let '(b_x, b_y, b_z) := b in
  (vcp_simd_sub a_x b_x, vcp_simd_sub a_y b_y, vcp_simd_sub a_z b_z).

(** *** The force policies *)

(** Modelled from the spec: the classes [SingleCellPolicy_] and
    [CellPairPolicy_] are declared in VectorizedCellProcessor.h, which is
    not among the sources.  Spec 4.3: "SingleCellPolicy: same cell; lower
    bound for j is source_site_index + 1.  CellPairPolicy: distinct cells;
    lower bound for j is 0", and an entry is set iff "the squared COM
    separation is below the cutoff squared". *)
Inductive ForcePolicy := SingleCellPolicy_ | CellPairPolicy_.

(** Modelled from the spec: [ForcePolicy::InitJ] of the missing header,
    the lower bound for j (spec 4.3). *)
Definition InitJ (pol : ForcePolicy) (i : nat) : nat :=
  match pol with
  | SingleCellPolicy_ => (i + 1)%nat
  | CellPairPolicy_ => 0%nat
  end.

(** Modelled from the spec: [ForcePolicy::Condition] of the missing header,
    "the squared COM separation is below the cutoff squared" (spec 4.3). *)
Definition Condition (pol : ForcePolicy) (m_r2 rc2 : Q) : bool :=
  Qlt_bool m_r2 rc2.


(** *** calcDistLookup (branch VCP_VEC_TYPE == VCP_NOVEC)

    [soa2_center_dist_lookup] and [soa2_m_r_x/y/z] are pointers into the
    second SoA: here the pointer [soa2] and the names of the arrays.  The
    result is the heap after the stores and [compute_molecule].  The
    arguments [cutoffRadiusSquareD], [end_j] and [m1_r_x/y/z] are not read
    in this branch. *)
Definition calcDistLookup (pol : ForcePolicy) (h : Heap) (soa1 : nat)
    (i i_center_idx soa2_num_centers : nat) (cutoffRadiusSquare : Q)
    (soa2 : nat) (soa2_center_dist_lookup : MaskArray) (soa2_m_r : Vec3Array)
    : Heap * Z :=
  fold_left
    (fun (st : Heap * Z) (j : nat) =>
       let '(h, compute_molecule) := st in
       let m_dx := vcp_simd_load h soa1 (Comp _mol_pos ax_x) i
                   - vcp_simd_load h soa2 (Comp soa2_m_r ax_x) j in
       let m_dy := vcp_simd_load h soa1 (Comp _mol_pos ax_y) i
                   - vcp_simd_load h soa2 (Comp soa2_m_r ax_y) j in
       let m_dz := vcp_simd_load h soa1 (Comp _mol_pos ax_z) i
                   - vcp_simd_load h soa2 (Comp soa2_m_r ax_z) j in
       let m_r2 := m_dx * m_dx + m_dy * m_dy + m_dz * m_dz in
       let forceMask :=
         if Condition pol m_r2 cutoffRadiusSquare then vcp_simd_ones
         else 0%Z in
       (store_mask h soa2 soa2_center_dist_lookup j forceMask,
        Z.lor compute_molecule forceMask))
    (seq (InitJ pol i_center_idx) (soa2_num_centers - InitJ pol i_center_idx))
    (h, 0%Z).


(** *** The processor *)
Record VectorizedCellProcessor := mkVCP {
  _cutoffRadiusSquare : Q;
  _LJCutoffRadiusSquare : Q;
  _epsRFInvrc3 : Q;
  _compIDs : list nat;
  _eps_sig : list (list Q);
  _shift6 : list (list Q);
  _upot6lj : Q;
  _upotXpoles : Q;
  _virial : Q;
  _myRF : Q
}.


Record Component := mkComponent {
  ID : nat;
  numLJcenters : nat;
  numTersoff : nat
}.

#[global] Instance Component_inhabited : Inhabited Component :=
  populate (mkComponent 0 0 0).





(** Modelled from the spec: [unpackEps24Sig2] and [unpackShift6] are
    declared in the missing VectorizedCellProcessor.h.  For the one lane at
    [j] they read the row of the source site's id at the id of the target
    site, in the layout the constructor fills (eps*24 at [2*id], sigma^2 at
    [2*id + 1]; spec 4.4: "sigma-squared, epsilon-times-24, shift-times-6"
    per pair of sites). *)
Definition unpackEps24Sig2 (eps_sig_row : list Q) (ljc_id : list nat)
    (j : nat) : Q * Q :=
  let id_j : nat := ljc_id !!! j in
  (eps_sig_row !!! (2 * id_j)%nat, eps_sig_row !!! (2 * id_j + 1)%nat).

(** Modelled from the spec: see [unpackEps24Sig2]. *)
Definition unpackShift6 (shift6_row : list Q) (ljc_id : list nat) (j : nat)
    : Q :=
  let id_j : nat := ljc_id !!! j in
  shift6_row !!! id_j.

(** *** _calculatePairs

    The ten site-pair loops of [_calculatePairs] share one skeleton:
    broadcast the source site, run [j] from [InitJ] to the end of the
    target array, and where the lookup entry is set call the kernel, add
    the force to one side and subtract it from the other, route the
    torques, and finally [hSum_Add_Store] the sums of the source site.
    [Interaction] names the loops; what differs between them is tabulated
    by [src_kind], [tgt_kind], [source_adds] and [run_kernel]. *)
Inductive Interaction :=
| I_LJ                    (* lines 1217-1276: LJ centre vs LJ centres *)
| I_ChargeCharge          (* lines 1290-1350 *)
| I_DipoleCharge          (* lines 1354-1426: source dipole, target charges *)
| I_QuadrupoleCharge      (* lines 1430-1504 *)
| I_DipoleDipole          (* lines 1521-1603 *)
| I_ChargeDipole          (* lines 1607-1673: source charge, target dipoles *)
| I_QuadrupoleDipole      (* lines 1678-1760 *)
| I_QuadrupoleQuadrupole  (* lines 1776-1855 *)
| I_ChargeQuadrupole      (* lines 1859-1924 *)
| I_DipoleQuadrupole.     (* lines 1929-2011 *)

Inductive SiteKind := ljc | charges | dipoles | quadrupoles.

Definition src_kind (it : Interaction) : SiteKind :=
  match it with
  | I_LJ => ljc
  | I_ChargeCharge | I_ChargeDipole | I_ChargeQuadrupole => charges
  | I_DipoleCharge | I_DipoleDipole | I_DipoleQuadrupole => dipoles
  | I_QuadrupoleCharge | I_QuadrupoleDipole | I_QuadrupoleQuadrupole =>
      quadrupoles
  end.

Definition tgt_kind (it : Interaction) : SiteKind :=
  match it with
  | I_LJ => ljc
  | I_ChargeCharge | I_DipoleCharge | I_QuadrupoleCharge => charges
  | I_DipoleDipole | I_ChargeDipole | I_QuadrupoleDipole => dipoles
  | I_QuadrupoleQuadrupole | I_ChargeQuadrupole | I_DipoleQuadrupole =>
      quadrupoles
  end.

Definition m_r_of (k : SiteKind) : Vec3Array :=
  match k with
  | ljc => _ljc_m_r | charges => _charges_m_r
  | dipoles => _dipoles_m_r | quadrupoles => _quadrupoles_m_r
  end.
Definition r_of (k : SiteKind) : Vec3Array :=
  match k with
  | ljc => _ljc_r | charges => _charges_r
  | dipoles => _dipoles_r | quadrupoles => _quadrupoles_r
  end.
Definition f_of (k : SiteKind) : Vec3Array :=
  match k with
  | ljc => _ljc_f | charges => _charges_f
  | dipoles => _dipoles_f | quadrupoles => _quadrupoles_f
  end.
(** Only dipoles and quadrupoles have a torque array. *)
Definition M_of (k : SiteKind) : option Vec3Array :=
  match k with
  | ljc | charges => None
  | dipoles => Some _dipoles_M
  | quadrupoles => Some _quadrupoles_M
  end.
Definition dist_lookup_of (k : SiteKind) : MaskArray :=
  match k with
  | ljc => _ljc_dist_lookup | charges => _charges_dist_lookup
  | dipoles => _dipoles_dist_lookup | quadrupoles => _quadrupoles_dist_lookup
  end.
Definition mol_num_of (k : SiteKind) (soa : CellDataSoA) : list nat :=
  match k with
  | ljc => _mol_ljc_num soa | charges => _mol_charges_num soa
  | dipoles => _mol_dipoles_num soa | quadrupoles => _mol_quadrupoles_num soa
  end.

(** [true]: [sum_f1 = sum_f1 + f] and the target gets [old - f];
    [false]: [sum_f1 = sum_f1 - f] and the target gets [old + f] (the
    loops that call a kernel with source and target exchanged). *)
Definition source_adds (it : Interaction) : bool :=
  match it with
  | I_DipoleCharge | I_QuadrupoleCharge | I_QuadrupoleDipole => false
  | _ => true
  end.

(** The macroscopic sums local to [_calculatePairs]. *)
Record Sums := mkSums {
  sum_upot6lj : Q;
  sum_upotXpoles : Q;
  sum_virial : Q;
  sum_myRF : Q
}.

Definition sums_zero : Sums :=
  mkSums vcp_simd_zerov vcp_simd_zerov vcp_simd_zerov vcp_simd_zerov.

(** The loads and the kernel call of one loop body, for source site
    [i_src] of [soa1] and target site [j] of [soa2]: the force [f], the
    torque for the source site, the torque for the target site, and the
    sums after the call. *)
Definition run_kernel `{SqrtOp} (it : Interaction)
    (CalculateMacroscopic : bool) (vcp : VectorizedCellProcessor)
    (h : Heap) (soa1 soa2 : nat) (m1_r : V3) (i_src j : nat)
    (s : Sums) (forceMask : Z) : V3 * V3 * V3 * Sums :=
  let '(m1_r_x, m1_r_y, m1_r_z) := m1_r in
  let '(r1_x, r1_y, r1_z) := load3 h soa1 (r_of (src_kind it)) i_src in
  let '(r2_x, r2_y, r2_z) := load3 h soa2 (r_of (tgt_kind it)) j in
  let '(m2_r_x, m2_r_y, m2_r_z) := load3 h soa2 (m_r_of (tgt_kind it)) j in
  match it with
  | I_LJ =>
      let id_i : nat := _ljc_id (soa_at h soa1) !!! i_src in
      let '(eps_24, sig2) :=
        unpackEps24Sig2 (_eps_sig vcp !!! id_i) (_ljc_id (soa_at h soa2)) j in
      let shift6 :=
        unpackShift6 (_shift6 vcp !!! id_i) (_ljc_id (soa_at h soa2)) j in
      let '(f, upot6lj, virial) :=
        _loopBodyLJ CalculateMacroscopic
          m1_r_x m1_r_y m1_r_z r1_x r1_y r1_z
          m2_r_x m2_r_y m2_r_z r2_x r2_y r2_z
          (sum_upot6lj s) (sum_virial s) forceMask eps_24 sig2 shift6 in
      (f, v3_zero, v3_zero,
       mkSums upot6lj (sum_upotXpoles s) virial (sum_myRF s))
  | I_ChargeCharge =>
      let q1 := vcp_simd_load h soa1 _charges_q i_src in
      let q2 := vcp_simd_load h soa2 _charges_q j in
      let '(f, upotXpoles, virial) :=
        _loopBodyCharge CalculateMacroscopic
          m1_r_x m1_r_y m1_r_z r1_x r1_y r1_z q1
          m2_r_x m2_r_y m2_r_z r2_x r2_y r2_z q2
          (sum_upotXpoles s) (sum_virial s) forceMask in
      (f, v3_zero, v3_zero,
       mkSums (sum_upot6lj s) upotXpoles virial (sum_myRF s))
  | I_DipoleCharge =>
      let p := vcp_simd_load h soa1 _dipoles_p i_src in
      let '(e_x, e_y, e_z) := load3 h soa1 _dipoles_e i_src in
      let q := vcp_simd_load h soa2 _charges_q j in
      let '(f, M, upotXpoles, virial) :=
        _loopBodyChargeDipole CalculateMacroscopic
          m2_r_x m2_r_y m2_r_z r2_x r2_y r2_z q
          m1_r_x m1_r_y m1_r_z r1_x r1_y r1_z e_x e_y e_z p
          (sum_upotXpoles s) (sum_virial s) forceMask vcp_simd_ones in
      (f, M, v3_zero,
       mkSums (sum_upot6lj s) upotXpoles virial (sum_myRF s))
  | I_QuadrupoleCharge =>
      let m := vcp_simd_load h soa1 _quadrupoles_m i_src in
      let '(e_x, e_y, e_z) := load3 h soa1 _quadrupoles_e i_src in
      let q := vcp_simd_load h soa2 _charges_q j in
      let '(f, M, upotXpoles, virial) :=
        _loopBodyChargeQuadrupole CalculateMacroscopic
          m2_r_x m2_r_y m2_r_z r2_x r2_y r2_z q
          m1_r_x m1_r_y m1_r_z r1_x r1_y r1_z e_x e_y e_z m
          (sum_upotXpoles s) (sum_virial s) forceMask vcp_simd_ones in
      (f, M, v3_zero,
       mkSums (sum_upot6lj s) upotXpoles virial (sum_myRF s))
  | I_DipoleDipole =>
      let p1 := vcp_simd_load h soa1 _dipoles_p i_src in
      let '(e1_x, e1_y, e1_z) := load3 h soa1 _dipoles_e i_src in
      let p2 := vcp_simd_load h soa2 _dipoles_p j in
      let '(e2_x, e2_y, e2_z) := load3 h soa2 _dipoles_e j in
      let epsRFInvrc3 := _epsRFInvrc3 vcp in
      let '(f, M1, M2, upotXpoles, virial, myRF) :=
        _loopBodyDipole CalculateMacroscopic
          m1_r_x m1_r_y m1_r_z r1_x r1_y r1_z e1_x e1_y e1_z p1
          m2_r_x m2_r_y m2_r_z r2_x r2_y r2_z e2_x e2_y e2_z p2
          (sum_upotXpoles s) (sum_virial s) (sum_myRF s) forceMask
          epsRFInvrc3 in
      (f, M1, M2, mkSums (sum_upot6lj s) upotXpoles virial myRF)
  | I_ChargeDipole =>
      let q := vcp_simd_load h soa1 _charges_q i_src in
      let p := vcp_simd_load h soa2 _dipoles_p j in
      let '(e_x, e_y, e_z) := load3 h soa2 _dipoles_e j in
      let '(f, M, upotXpoles, virial) :=
        _loopBodyChargeDipole CalculateMacroscopic
          m1_r_x m1_r_y m1_r_z r1_x r1_y r1_z q
          m2_r_x m2_r_y m2_r_z r2_x r2_y r2_z e_x e_y e_z p
          (sum_upotXpoles s) (sum_virial s) forceMask 0%Z in
      (f, v3_zero, M,
       mkSums (sum_upot6lj s) upotXpoles virial (sum_myRF s))
  | I_QuadrupoleDipole =>
      let m := vcp_simd_load h soa1 _quadrupoles_m i_src in
      let '(e1_x, e1_y, e1_z) := load3 h soa1 _quadrupoles_e i_src in
      let p := vcp_simd_load h soa2 _dipoles_p j in
      let '(e2_x, e2_y, e2_z) := load3 h soa2 _dipoles_e j in
      (* the call names its torque outputs (M2, M1): the kernel's first
         torque is the one of the dipole, the target here *)
      let '(f, M2, M1, upotXpoles, virial) :=
        _loopBodyDipoleQuadrupole CalculateMacroscopic
          m2_r_x m2_r_y m2_r_z r2_x r2_y r2_z e2_x e2_y e2_z p
          m1_r_x m1_r_y m1_r_z r1_x r1_y r1_z e1_x e1_y e1_z m
          (sum_upotXpoles s) (sum_virial s) forceMask vcp_simd_ones in
      (f, M1, M2, mkSums (sum_upot6lj s) upotXpoles virial (sum_myRF s))
  | I_QuadrupoleQuadrupole =>
      let mii := vcp_simd_load h soa1 _quadrupoles_m i_src in
      let '(eii_x, eii_y, eii_z) := load3 h soa1 _quadrupoles_e i_src in
      let mjj := vcp_simd_load h soa2 _quadrupoles_m j in
      let '(ejj_x, ejj_y, ejj_z) := load3 h soa2 _quadrupoles_e j in
      let '(f, M1, M2, upotXpoles, virial) :=
        _loopBodyQuadrupole CalculateMacroscopic
          m1_r_x m1_r_y m1_r_z r1_x r1_y r1_z eii_x eii_y eii_z mii
          m2_r_x m2_r_y m2_r_z r2_x r2_y r2_z ejj_x ejj_y ejj_z mjj
          (sum_upotXpoles s) (sum_virial s) forceMask in
      (f, M1, M2, mkSums (sum_upot6lj s) upotXpoles virial (sum_myRF s))
  | I_ChargeQuadrupole =>
      let q := vcp_simd_load h soa1 _charges_q i_src in
      let m := vcp_simd_load h soa2 _quadrupoles_m j in
      let '(e_x, e_y, e_z) := load3 h soa2 _quadrupoles_e j in
      let '(f, M, upotXpoles, virial) :=
        _loopBodyChargeQuadrupole CalculateMacroscopic
          m1_r_x m1_r_y m1_r_z r1_x r1_y r1_z q
          m2_r_x m2_r_y m2_r_z r2_x r2_y r2_z e_x e_y e_z m
          (sum_upotXpoles s) (sum_virial s) forceMask 0%Z in
      (f, v3_zero, M,
       mkSums (sum_upot6lj s) upotXpoles virial (sum_myRF s))
  | I_DipoleQuadrupole =>
      let p := vcp_simd_load h soa1 _dipoles_p i_src in
      let '(eii_x, eii_y, eii_z) := load3 h soa1 _dipoles_e i_src in
      let m := vcp_simd_load h soa2 _quadrupoles_m j in
      let '(ejj_x, ejj_y, ejj_z) := load3 h soa2 _quadrupoles_e j in
      let '(f, M1, M2, upotXpoles, virial) :=
        _loopBodyDipoleQuadrupole CalculateMacroscopic
          m1_r_x m1_r_y m1_r_z r1_x r1_y r1_z eii_x eii_y eii_z p
          m2_r_x m2_r_y m2_r_z r2_x r2_y r2_z ejj_x ejj_y ejj_z m
          (sum_upotXpoles s) (sum_virial s) forceMask 0%Z in
      (f, M1, M2, mkSums (sum_upot6lj s) upotXpoles virial (sum_myRF s))
  end.

(** What the [j] loop of a source site carries: the heap, the macroscopic
    sums, and the sums [sum_f1], [sum_M1] of the source site. *)
Record PairAcc := mkPairAcc {
  pa_heap : Heap;
  pa_sums : Sums;
  sum_f1 : V3;
  sum_M1 : V3
}.

(** One iteration of a [j] loop:
    [forceMask = load(dist_lookup + j); if (movemask(forceMask) > 0) ...]. *)
Definition pair_body `{SqrtOp} (it : Interaction)
    (CalculateMacroscopic : bool) (vcp : VectorizedCellProcessor)
    (soa1 soa2 : nat) (m1_r : V3) (i_src : nat) (acc : PairAcc) (j : nat)
    : PairAcc :=
  let h := pa_heap acc in
  let forceMask := load_mask h soa2 (dist_lookup_of (tgt_kind it)) j in
  if Z.ltb 0 (vcp_simd_movemask forceMask) then
    let '(f, M_src, M_tgt, s) :=
      run_kernel it CalculateMacroscopic vcp h soa1 soa2 m1_r i_src j
        (pa_sums acc) forceMask in
    let '(sum_f1', h) :=
      if source_adds it then
        (v3_add (sum_f1 acc) f,
         vcp_simd_load_sub_store3 h soa2 (f_of (tgt_kind it)) j f)
      else
        (v3_sub (sum_f1 acc) f,
         vcp_simd_load_add_store3 h soa2 (f_of (tgt_kind it)) j f) in
    let sum_M1' :=
      match M_of (src_kind it) with
      | Some _ => v3_add (sum_M1 acc) M_src
      | None => sum_M1 acc
      end in
    let h :=
      match M_of (tgt_kind it) with
      | Some M_arr => vcp_simd_load_add_store3 h soa2 M_arr j M_tgt
      | None => h
      end in
    mkPairAcc h s sum_f1' sum_M1'
  else acc.

(** The [j] loop of one source site and the [hSum_Add_Store]s after it. *)
Definition pair_loop `{SqrtOp} (it : Interaction)
    (CalculateMacroscopic : bool) (vcp : VectorizedCellProcessor)
    (soa1 soa2 : nat) (m1_r : V3) (i_src j0 end_j_longloop : nat)
    (h : Heap) (s : Sums) : Heap * Sums :=
  let acc :=
    fold_left (pair_body it CalculateMacroscopic vcp soa1 soa2 m1_r i_src)
      (seq j0 (end_j_longloop - j0))
      (mkPairAcc h s v3_zero v3_zero) in
  let h := hSum_Add_Store3 (pa_heap acc) soa1 (f_of (src_kind it)) i_src
             (sum_f1 acc) in
  let h :=
    match M_of (src_kind it) with
    | Some M_arr => hSum_Add_Store3 h soa1 M_arr i_src (sum_M1 acc)
    | None => h
    end in
  (h, pa_sums acc).

(** The ten running site indices of [_calculatePairs]. *)
Inductive IdxVar :=
| i_ljc_idx | i_charge_idx | i_charge_dipole_idx | i_charge_quadrupole_idx
| i_dipole_charge_idx | i_dipole_idx | i_dipole_quadrupole_idx
| i_quadrupole_charge_idx | i_quadrupole_dipole_idx | i_quadrupole_idx.

#[global] Instance IdxVar_eq_dec : EqDecision IdxVar.
Proof. solve_decision. Defined.

Definition Idx : Type := IdxVar -> nat.

(** [v += n]. *)
Definition bump (ix : Idx) (v : IdxVar) (n : nat) : Idx :=
  fun v' => if decide (v' = v) then (ix v' + n)%nat else ix v'.

Record LoopState := mkLoopState {
  ls_heap : Heap;
  ls_sums : Sums;
  ls_idx : Idx
}.

(** A loop [for (local_i = 0; local_i < n; local_i++)] over the sites of
    one kind of the source molecule: [src] is the index of the source
    site, [initj] the argument of [InitJ], [inc] the index that the body
    increments at its end (if any). *)
Definition site_loop `{SqrtOp} (pol : ForcePolicy) (it : Interaction)
    (CalculateMacroscopic : bool) (vcp : VectorizedCellProcessor)
    (soa1 soa2 : nat) (m1_r : V3) (n : nat)
    (src initj : Idx -> nat -> nat) (inc : option IdxVar)
    (end_j_longloop : nat) (st : LoopState) : LoopState :=
  fold_left
    (fun (st : LoopState) (local_i : nat) =>
       let i_src := src (ls_idx st) local_i in
       let j0 := InitJ pol (initj (ls_idx st) local_i) in
       let '(h, s) :=
         pair_loop it CalculateMacroscopic vcp soa1 soa2 m1_r i_src j0
           end_j_longloop (ls_heap st) (ls_sums st) in
       mkLoopState h s
         match inc with
         | Some v => bump (ls_idx st) v 1
         | None => ls_idx st
         end)
    (seq 0 n) st.

Definition bump_idx (st : LoopState) (v : IdxVar) (n : nat) : LoopState :=
  mkLoopState (ls_heap st) (ls_sums st) (bump (ls_idx st) v n).

(** [vcp_floor_to_vec_size] and [vcp_ceil_to_vec_size] with one lane. *)
Definition vcp_floor_to_vec_size (n : nat) : nat := n.
Definition vcp_ceil_to_vec_size (n : nat) : nat := n.

(** The body of the loop over the molecules [i] of the first cell
    (lines 1193-2015). *)
Definition molecule_body `{SqrtOp} (pol : ForcePolicy)
    (CalculateMacroscopic : bool) (vcp : VectorizedCellProcessor)
    (soa1 soa2 : nat)
    (end_ljc_j_longloop end_charges_j_longloop
     end_dipoles_j_longloop end_quadrupoles_j_longloop : nat)
    (st : LoopState) (i : nat) : LoopState :=
  let h := ls_heap st in
  let ix := ls_idx st in
  let m1_r := load3 h soa1 _mol_pos i in
  let n_ljc : nat := _mol_ljc_num (soa_at h soa1) !!! i in
  let n_charges : nat := _mol_charges_num (soa_at h soa1) !!! i in
  let n_dipoles : nat := _mol_dipoles_num (soa_at h soa1) !!! i in
  let n_quadrupoles : nat := _mol_quadrupoles_num (soa_at h soa1) !!! i in
  let '(h, compute_molecule_ljc) :=
    calcDistLookup pol h soa1 i (ix i_ljc_idx) (_ljc_num (soa_at h soa2))
      (_LJCutoffRadiusSquare vcp) soa2 _ljc_dist_lookup _ljc_m_r in
  let '(h, compute_molecule_charges) :=
    calcDistLookup pol h soa1 i (ix i_charge_idx)
      (_charges_num (soa_at h soa2))
      (_cutoffRadiusSquare vcp) soa2 _charges_dist_lookup _charges_m_r in
  let '(h, compute_molecule_dipoles) :=
    calcDistLookup pol h soa1 i (ix i_dipole_idx)
      (_dipoles_num (soa_at h soa2))
      (_cutoffRadiusSquare vcp) soa2 _dipoles_dist_lookup _dipoles_m_r in
  let '(h, compute_molecule_quadrupoles) :=
    calcDistLookup pol h soa1 i (ix i_quadrupole_idx)
      (_quadrupoles_num (soa_at h soa2))
      (_cutoffRadiusSquare vcp) soa2 _quadrupoles_dist_lookup
      _quadrupoles_m_r in
  let st := mkLoopState h (ls_sums st) ix in
  let loop it n src initj inc end_j st :=
    site_loop pol it CalculateMacroscopic vcp soa1 soa2 m1_r n
      src initj inc end_j st in
  (* LJ centres *)
  let st :=
    if Z.eqb (vcp_simd_movemask compute_molecule_ljc) 0 then
      bump_idx st i_ljc_idx n_ljc
    else
      loop I_LJ n_ljc
        (fun ix _ => ix i_ljc_idx) (fun ix _ => ix i_ljc_idx)
        (Some i_ljc_idx) end_ljc_j_longloop st in
  (* site interactions with charges *)
  let st :=
    if Z.eqb (vcp_simd_movemask compute_molecule_charges) 0 then
      bump_idx
        (bump_idx (bump_idx st i_charge_idx n_charges)
           i_dipole_charge_idx n_dipoles)
        i_quadrupole_charge_idx n_quadrupoles
    else
      let st :=
        loop I_ChargeCharge n_charges
          (fun ix local_i => (ix i_charge_idx + local_i)%nat)
          (fun ix local_i => (ix i_charge_idx + local_i)%nat)
          None end_charges_j_longloop st in
      let st :=
        loop I_DipoleCharge n_dipoles
          (fun ix _ => ix i_dipole_charge_idx) (fun ix _ => ix i_charge_idx)
          (Some i_dipole_charge_idx) end_charges_j_longloop st in
      let st :=
        loop I_QuadrupoleCharge n_quadrupoles
          (fun ix _ => ix i_quadrupole_charge_idx)
          (fun ix _ => ix i_charge_idx)
          (Some i_quadrupole_charge_idx) end_charges_j_longloop st in
      bump_idx st i_charge_idx n_charges in
  (* site interactions with dipoles *)
  let st :=
    if Z.eqb (vcp_simd_movemask compute_molecule_dipoles) 0 then
      bump_idx
        (bump_idx (bump_idx st i_dipole_idx n_dipoles)
           i_charge_dipole_idx n_charges)
        i_quadrupole_dipole_idx n_quadrupoles
    else
      let st :=
        loop I_DipoleDipole n_dipoles
          (fun ix local_i => (ix i_dipole_idx + local_i)%nat)
          (fun ix local_i => (ix i_dipole_idx + local_i)%nat)
          None end_dipoles_j_longloop st in
      let st :=
        loop I_ChargeDipole n_charges
          (fun ix _ => ix i_charge_dipole_idx) (fun ix _ => ix i_dipole_idx)
          (Some i_charge_dipole_idx) end_dipoles_j_longloop st in
      let st :=
        loop I_QuadrupoleDipole n_quadrupoles
          (fun ix _ => ix i_quadrupole_dipole_idx)
          (fun ix _ => ix i_dipole_idx)
          (Some i_quadrupole_dipole_idx) end_dipoles_j_longloop st in
      bump_idx st i_dipole_idx n_dipoles in
  (* site interactions with quadrupoles *)
  let st :=
    if Z.eqb (vcp_simd_movemask compute_molecule_quadrupoles) 0 then
      bump_idx
        (bump_idx (bump_idx st i_quadrupole_idx n_quadrupoles)
           i_charge_quadrupole_idx n_charges)
        i_dipole_quadrupole_idx n_dipoles
    else
      let st :=
        loop I_QuadrupoleQuadrupole n_quadrupoles
          (fun ix local_i => (ix i_quadrupole_idx + local_i)%nat)
          (fun ix local_i => (ix i_quadrupole_idx + local_i)%nat)
          None end_quadrupoles_j_longloop st in
      let st :=
        loop I_ChargeQuadrupole n_charges
          (fun ix _ => ix i_charge_quadrupole_idx)
          (fun ix _ => ix i_quadrupole_idx)
          (Some i_charge_quadrupole_idx) end_quadrupoles_j_longloop st in
      let st :=
        loop I_DipoleQuadrupole n_dipoles
          (fun ix _ => ix i_dipole_quadrupole_idx)
          (fun ix _ => ix i_quadrupole_idx)
          (Some i_dipole_quadrupole_idx) end_quadrupoles_j_longloop st in
      bump_idx st i_quadrupole_idx n_quadrupoles in
  st.

(** [_calculatePairs<ForcePolicy, CalculateMacroscopic>(soa1, soa2)]. *)
Definition _calculatePairs `{SqrtOp} (pol : ForcePolicy)
    (CalculateMacroscopic : bool) (vcp : VectorizedCellProcessor)
    (h : Heap) (soa1 soa2 : nat) : VectorizedCellProcessor * Heap :=
  let end_ljc_j_longloop := vcp_ceil_to_vec_size (_ljc_num (soa_at h soa2)) in
  let end_charges_j_longloop :=
    vcp_ceil_to_vec_size (_charges_num (soa_at h soa2)) in
  let end_dipoles_j_longloop :=
    vcp_ceil_to_vec_size (_dipoles_num (soa_at h soa2)) in
  let end_quadrupoles_j_longloop :=
    vcp_ceil_to_vec_size (_quadrupoles_num (soa_at h soa2)) in
  let st :=
    fold_left
      (molecule_body pol CalculateMacroscopic vcp soa1 soa2
         end_ljc_j_longloop end_charges_j_longloop
         end_dipoles_j_longloop end_quadrupoles_j_longloop)
      (seq 0 (_mol_num (soa_at h soa1)))
      (mkLoopState h sums_zero (fun _ => 0%nat)) in
  let s := ls_sums st in
  (mkVCP (_cutoffRadiusSquare vcp) (_LJCutoffRadiusSquare vcp)
     (_epsRFInvrc3 vcp) (_compIDs vcp) (_eps_sig vcp) (_shift6 vcp)
     (hSum_Add (_upot6lj vcp) (sum_upot6lj s))
     (hSum_Add (_upotXpoles vcp) (sum_upotXpoles s))
     (hSum_Add (_virial vcp) (sum_virial s))
     (hSum_Add (_myRF vcp) (vcp_simd_sub zero (sum_myRF s))),
   ls_heap st).

(** *** Cells and the two entry points of the traversal *)
Record ParticleCell := mkParticleCell {
  isHaloCell : bool;
  getCellIndex : Z;
  getCellDataSoA : nat
}.

(** [VectorizedCellProcessor::processCell] (lines 2024-2031). *)
Definition processCell `{SqrtOp} (vcp : VectorizedCellProcessor) (h : Heap)
    (c : ParticleCell) : VectorizedCellProcessor * Heap :=
  if isHaloCell c || Nat.ltb (_mol_num (soa_at h (getCellDataSoA c))) 2 then
    (vcp, h)
  else
    _calculatePairs SingleCellPolicy_ true vcp h
      (getCellDataSoA c) (getCellDataSoA c).

(** [VectorizedCellProcessor::processCellPair] (lines 2033-2054). *)
Definition processCellPair `{SqrtOp} (vcp : VectorizedCellProcessor)
    (h : Heap) (c1 c2 : ParticleCell) : VectorizedCellProcessor * Heap :=
  if Nat.eqb (_mol_num (soa_at h (getCellDataSoA c1))) 0
     || Nat.eqb (_mol_num (soa_at h (getCellDataSoA c2))) 0
  then (vcp, h)
  else if negb (isHaloCell c1 || isHaloCell c2) then
    _calculatePairs CellPairPolicy_ true vcp h
      (getCellDataSoA c1) (getCellDataSoA c2)
  else if Bool.eqb (isHaloCell c1) (negb (isHaloCell c2)) then
    if Z.ltb (getCellIndex c1) (getCellIndex c2) then
      _calculatePairs CellPairPolicy_ true vcp h
        (getCellDataSoA c1) (getCellDataSoA c2)
    else
      _calculatePairs CellPairPolicy_ false vcp h
        (getCellDataSoA c1) (getCellDataSoA c2)
  else (vcp, h).

(** *** Notions for the statements about the traversal *)

(** The component of a triple that belongs to an axis. *)
Definition comp (c : Axis) (v : V3) : Q :=
  match c with
  | ax_x => fst (fst v)
  | ax_y => snd (fst v)
  | ax_z => snd v
  end.






(** The members of a SoA that the traversal only reads. *)
Definition soa_static (s : CellDataSoA) :=
  (_mol_num s, _ljc_num s, _charges_num s, _dipoles_num s, _quadrupoles_num s,
   _mol_ljc_num s, _mol_charges_num s, _mol_dipoles_num s,
   _mol_quadrupoles_num s, _ljc_id s).



(** The site counts of a SoA are sums over its molecules ([preprocessCell]
    passes them to [resize]): a SoA without molecules has no sites. *)
Definition no_sites (soa : CellDataSoA) : Prop :=
  _ljc_num soa = 0%nat /\ _charges_num soa = 0%nat
  /\ _dipoles_num soa = 0%nat /\ _quadrupoles_num soa = 0%nat.



(** *** Sample cells

    A cell of one-centre LJ molecules on the x axis, as [preprocessCell]
    fills it (forces and lookup entries zero), and a processor for one
    component with eps*24 = 24, sigma^2 = 1, shift*6 = 0 and both cutoff
    radii 10. *)
Definition lj_cell (xs : list Q) : CellDataSoA :=
  let n := length xs in
  mkCellDataSoA n n 0 0 0
    (replicate n 1%nat) (replicate n 0%nat) (replicate n 0%nat)
    (replicate n 0%nat) (replicate n 0%nat)
    (fun a =>
       match a with
       | Comp _mol_pos ax_x | Comp _ljc_m_r ax_x | Comp _ljc_r ax_x => xs
       | Comp _mol_pos _ | Comp _ljc_m_r _ | Comp _ljc_r _ | Comp _ljc_f _ =>
           replicate n 0
       | _ => []
       end)
    (fun a =>
       match a with
       | _ljc_dist_lookup => replicate n 0%Z
       | _ => []
       end).

Definition lj_processor : VectorizedCellProcessor :=
  mkVCP 100 100 0 [0%nat] [[24; 1]] [[0]] 0 0 0 0.



(** Two cells: an owned one with two molecules, a halo one with one. *)
Definition heap_two_cells : Heap := [lj_cell [0; 1]; lj_cell [2]].
Definition cell_owned : ParticleCell := mkParticleCell false 0 0.
Definition cell_halo : ParticleCell := mkParticleCell true 1 1.

End VCP.

(** ** NeighbourCommunicationScheme.cpp: the one-stage halo exchange *)
Module HaloExchange.
Import SIMD.

(** A molecule as the exchange sees it: its identity and its position. *)
Record Molecule := mkMolecule {
  id : Z;
  componentid : Z;
  r : Q * Q * Q
}.

(** The halo cells of the molecule container, as the list of the
    molecules they hold. *)
Abbreviation ParticleContainer := (list Molecule).

(** CommunicationPartner.cpp is not among the sources: the loop is
    parametric in the partner type and in its three polling operations.
    Each returns whether the partner is done with that phase, and the
    partner after the call; [testRecv] also returns the container after
    unpacking. *)
Class PartnerOps (P : Type) := {
  getRank : P -> Z;
  testSend : P -> bool * P;
  iprobeCount : P -> bool * P;
  testRecv : P -> ParticleContainer -> bool -> bool * P * ParticleContainer
}.

(** What the loop writes to the log. *)
Inductive LogEvent :=
| DeadlockWarning (rank : Z) (waitCounter : Q)
| DeadlockError (rank : Z) (deadlockTimeOut : Q)
| deadlockDiagnosticSendRecv (neighbour : nat).

(** How a run of the function ends: it returns, the process exits with a
    code ([global_simulation->exit]), or the clock readings given to the
    model are used up while the loop is still polling. *)
Inductive Outcome :=
| Returned
| Exited (code : Z)
| StillPolling.

Record Exchange (P : Type) := mkExchange {
  outcome : Outcome;
  neighbours : list P;
  moleculeContainer : ParticleContainer;
  log : list LogEvent
}.
Arguments mkExchange {P}.
Arguments outcome {P}.
Arguments neighbours {P}.
Arguments moleculeContainer {P}.
Arguments log {P}.

Section Scheme1Stage.
Context {P : Type} `{PartnerOps P}.

(** [for (i...) if (rank != _neighbours[0][i].getRank())
      allDone &= _neighbours[0][i].op();] *)
Fixpoint poll_all (op : P -> bool * P) (rank : Z) (ns : list P)
    (allDone : bool) : bool * list P :=
  match ns with
  | [] => (allDone, [])
  | n :: ns' =>
      if negb (Z.eqb rank (getRank n)) then
        let '(b, n') := op n in
        let '(allDone', ns'') := poll_all op rank ns' (allDone && b) in
        (allDone', n' :: ns'')
      else
        let '(allDone', ns'') := poll_all op rank ns' allDone in
        (allDone', n :: ns'')
  end.

(** The unpack loop: [allDone &= testRecv(moleculeContainer,
    removeRecvDuplicates)]. *)
Fixpoint recv_all (rank : Z) (removeRecvDuplicates : bool) (ns : list P)
    (c : ParticleContainer) (allDone : bool)
    : bool * list P * ParticleContainer :=
  match ns with
  | [] => (allDone, [], c)
  | n :: ns' =>
      if negb (Z.eqb rank (getRank n)) then
        let '(b, n', c') := testRecv n c removeRecvDuplicates in
        let '(allDone', ns'', c'') :=
          recv_all rank removeRecvDuplicates ns' c' (allDone && b) in
        (allDone', n' :: ns'', c'')
      else
        let '(allDone', ns'', c'') :=
          recv_all rank removeRecvDuplicates ns' c allDone in
        (allDone', n :: ns'', c'')
  end.

(** [for (i...) if (rank != neighbour rank)
      _neighbours[0][i].deadlockDiagnosticSendRecv();] *)
Fixpoint diagnostics_from (i : nat) (rank : Z) (ns : list P)
    : list LogEvent :=
  match ns with
  | [] => []
  | n :: ns' =>
      if negb (Z.eqb rank (getRank n)) then
        deadlockDiagnosticSendRecv i :: diagnostics_from (S i) rank ns'
      else diagnostics_from (S i) rank ns'
  end.

Definition diagnostics (rank : Z) (ns : list P) : list LogEvent :=
  diagnostics_from 0 rank ns.

(** The loop [while (not allDone)] (lines 101-147).  [clock] holds the
    values that the successive calls of [MPI_Wtime] in the loop return,
    one per iteration. *)
Fixpoint finalize_loop (clock : list Q) (startTime waitCounter
    deadlockTimeOut : Q) (rank : Z) (removeRecvDuplicates : bool)
    (ns : list P) (c : ParticleContainer) (lg : list LogEvent)
    : Exchange P :=
  match clock with
  | [] => mkExchange StillPolling ns c lg
  | now :: clock' =>
      let allDone := true in
      let '(allDone, ns) := poll_all testSend rank ns allDone in
      let '(allDone, ns) := poll_all iprobeCount rank ns allDone in
      let '(allDone, ns, c) :=
        recv_all rank removeRecvDuplicates ns c allDone in
      let waitingTime := now - startTime in
      let '(waitCounter, lg) :=
        if Qlt_bool waitCounter waitingTime then
          (waitCounter + 1,
           lg ++ DeadlockWarning rank waitCounter :: diagnostics rank ns)
        else (waitCounter, lg) in
      if Qlt_bool deadlockTimeOut waitingTime then
        mkExchange (Exited 457) ns c
          (lg ++ DeadlockError rank deadlockTimeOut :: diagnostics rank ns)
      else if allDone then mkExchange Returned ns c lg
      else finalize_loop clock' startTime waitCounter deadlockTimeOut
             rank removeRecvDuplicates ns c lg
  end.

(** [NeighbourCommunicationScheme1Stage::finalizeExchangeMoleculesMPI]
    (lines 85-149).  [rank] is [domainDecomp->getRank()], [neighbours0]
    is [_neighbours[0]]; [startTime] is the value of the first call of
    [MPI_Wtime], [clock] the values of the later ones. *)
Definition finalizeExchangeMoleculesMPI
    (_coversWholeDomain : bool * bool * bool) (neighbours0 : list P)
    (moleculeContainer : ParticleContainer) (removeRecvDuplicates : bool)
    (rank : Z) (startTime : Q) (clock : list Q) : Exchange P :=
  let '(covers0, covers1, covers2) := _coversWholeDomain in
  let removeRecvDuplicates := removeRecvDuplicates && covers0 in
  let removeRecvDuplicates := removeRecvDuplicates && covers1 in
  let removeRecvDuplicates := removeRecvDuplicates && covers2 in
  let waitCounter := 1 in
  let deadlockTimeOut := 60 in
  finalize_loop clock startTime waitCounter deadlockTimeOut rank
    removeRecvDuplicates neighbours0 moleculeContainer [].

(** The loop as the spec words it (4.6, 5): the hard timeout is a
    setting of the exchange, "a configurable timeout (default 60 s)".
    This definition follows the spec, not the source; it is what
    [finalizeExchangeMoleculesMPI] is compared with. *)
Definition finalize_with_configured_timeout (configuredTimeOut : Q)
    (_coversWholeDomain : bool * bool * bool) (neighbours0 : list P)
    (moleculeContainer : ParticleContainer) (removeRecvDuplicates : bool)
    (rank : Z) (startTime : Q) (clock : list Q) : Exchange P :=
  let '(covers0, covers1, covers2) := _coversWholeDomain in
  finalize_loop clock startTime 1 configuredTimeOut rank
    (removeRecvDuplicates && covers0 && covers1 && covers2)
    neighbours0 moleculeContainer [].

End Scheme1Stage.

(** *** A partner that unpacks into the halo cells *)

(** Modelled from the spec: [CommunicationPartner::testSend],
    [iprobeCount] and [testRecv] are in CommunicationPartner.cpp, which is
    not among the sources.  Spec 4.6: the loop is "asynchronously probing
    for incoming messages, unpacking each as soon as its size is known",
    and "the exchange removes duplicates by molecule id when merging into
    halo cells".  A partner holds, for each phase, the number of polls
    after which the phase completes, and the molecules of the message it
    will receive. *)
Record CommunicationPartner := mkPartner {
  partnerRank : Z;
  sendPolls : nat;
  countPolls : nat;
  recvPolls : nat;
  recvBuffer : list Molecule;
  msgReceived : bool
}.

(** Modelled from the spec: whether the halo cells hold a molecule of that
    id ("removes duplicates by molecule id", spec 4.6). *)
Definition has_id (c : ParticleContainer) (i : Z) : bool :=
  existsb (fun m => Z.eqb (id m) i) c.

(** Modelled from the spec: merging one received molecule into the halo
    cells, dropping it when the removal is asked for and its id is there
    already (spec 4.6). *)
Definition addHaloParticle (removeRecvDuplicates : bool)
    (c : ParticleContainer) (m : Molecule) : ParticleContainer :=
  if removeRecvDuplicates && has_id c (id m) then c else c ++ [m].

(** Modelled from the spec: unpacking a received message, "merging into
    halo cells" molecule by molecule (spec 4.6). *)
Definition unpack (removeRecvDuplicates : bool) (c : ParticleContainer)
    (ms : list Molecule) : ParticleContainer :=
  fold_left (addHaloParticle removeRecvDuplicates) ms c.

(** Modelled from the spec: the three polling operations of the partner;
    a message is unpacked at the poll at which its size is known and its
    receive has completed (spec 4.6). *)
#[global] Instance CommunicationPartner_ops : PartnerOps CommunicationPartner := {
  getRank := partnerRank;
  testSend p :=
    match sendPolls p with
    | O => (true, p)
    | S k => (false, mkPartner (partnerRank p) k (countPolls p) (recvPolls p)
                       (recvBuffer p) (msgReceived p))
    end;
  iprobeCount p :=
    match countPolls p with
    | O => (true, p)
    | S k => (false, mkPartner (partnerRank p) (sendPolls p) k (recvPolls p)
                       (recvBuffer p) (msgReceived p))
    end;
  testRecv p c removeRecvDuplicates :=
    if msgReceived p then (true, p, c)
    else
      match countPolls p, recvPolls p with
      | O, O =>
          (true,
           mkPartner (partnerRank p) (sendPolls p) 0 0 (recvBuffer p) true,
           unpack removeRecvDuplicates c (recvBuffer p))
      | O, S k =>
          (false,
           mkPartner (partnerRank p) (sendPolls p) 0 k (recvBuffer p) false,
           c)
      | S _, _ => (false, p, c)
      end
}.

(** *** Notions for the statements about the exchange *)

(** The value of [waitCounter] after [k] warnings: 1.0, then [+= 1.0] with
    each warning. *)
Fixpoint threshold (k : nat) : Q :=
  match k with
  | O => 1
  | S k' => threshold k' + 1
  end.

Definition is_warning (e : LogEvent) : bool :=
  match e with
  | DeadlockWarning _ _ => true
  | _ => false
  end.

(** The number of deadlock warnings in a log. *)
Definition warnings (lg : list LogEvent) : nat :=
  length (List.filter is_warning lg).

(** The ids of the molecules of the halo cells. *)
Definition ids (c : ParticleContainer) : list Z := map id c.

(** *** Sample partners *)
Definition mol7 : Molecule := mkMolecule 7 0 (0, 0, 0).

(** A neighbour of rank 1 whose message, a copy of molecule 7, is there at
    the first poll. *)
Definition partner_ready : CommunicationPartner :=
  mkPartner 1 0 0 0 [mol7] false.

(** A neighbour of rank 1 whose send completes at the second poll. *)
Definition partner_slow : CommunicationPartner :=
  mkPartner 1 1 0 0 [] false.

End HaloExchange.

(** ** plugins/Mirror.cpp: reading the configuration *)
Module Mirror.

(** Modelled from the spec: the XML reader (XMLfileUnits) is not among the
    sources.  Spec 7: a ConfigError is "malformed input (file missing, XML
    schema mismatch, missing required fields)"; [getNodeValue(path, x)]
    says whether the node was found with a value of the type of [x], and
    only then assigns [x]. *)
Inductive XMLValue :=
| XInt (z : Z)
| XReal (q : Q)
| XString (s : string).

Definition XMLfileUnits : Type := gmap string XMLValue.

Definition getNodeValue_int (xmlconfig : gmap string XMLValue)
    (path : string) (x : Z) : bool * Z :=
  match xmlconfig !! path with
  | Some (XInt z) => (true, z)
  | _ => (false, x)
  end.

Definition getNodeValue_real (xmlconfig : gmap string XMLValue)
    (path : string) (x : Q) : bool * Q :=
  match xmlconfig !! path with
  | Some (XReal q) => (true, q)
  | Some (XInt z) => (true, inject_Z z)
  | _ => (false, x)
  end.

Definition getNodeValue_string (xmlconfig : gmap string XMLValue)
    (path : string) (x : string) : bool * string :=
  match xmlconfig !! path with
  | Some (XString s) => (true, s)
  | _ => (false, x)
  end.

(** A run that may end in [Simulation::exit(code)]: the process stops
    there, with the code it was given. *)
Inductive Run (A : Type) :=
| Done (a : A)
| Exit (code : Z).
Arguments Done {A}.
Arguments Exit {A}.

#[global] Instance Run_ret : MRet Run := @Done.
#[global] Instance Run_bind : MBind Run := fun A B k m =>
  match m with
  | Done a => k a
  | Exit code => Exit code
  end.

(** The enumerations of Mirror.h (not among the sources), as their
    underlying integers: [static_cast<MirrorType>(type)] keeps the number.
    The log messages of [readXML] name methods 3, 4 and 5. *)
Definition MT_UNKNOWN : Z := 0.
Definition MT_REFLECT : Z := 1.
Definition MT_FORCE_CONSTANT : Z := 2.
Definition MT_ZERO_GRADIENT : Z := 3.
Definition MT_NORMDISTR_MB : Z := 4.
Definition MT_MELAND_2004 : Z := 5.
Definition MT_RAMPING : Z := 6.

Definition MD_LEFT_MIRROR : Z := 0.
Definition MD_RIGHT_MIRROR : Z := 1.

Record MirrorState := mkMirror {
  _pluginID : Z;
  _targetComp : Z;
  _position_ref_id : Z;
  _position_ref_origin : Q;
  _position_ref_coord : Q;
  _position_coord : Q;
  _type : Z;
  _direction : Z;
  _forceConstant : Q;
  _melandParams_fixed_probability_factor : Q;
  _melandParams_velo_target : Q;
  _rampingParams_startStep : Z;
  _rampingParams_stopStep : Z;
  _rampingParams_treatment : Z;
  _diffuse_mirror_enabled : bool;
  _diffuse_mirror_width : Q
}.

(** [Mirror::update(subject)]: the reference origin from the DistControl
    plug-in, if there is one ([subject] is its pair of interface
    midpoints). *)
Definition update (subject : option (Q * Q)) (ref_id : Z) (ref_coord : Q)
    : Q * Q :=
  let '(dMidpointLeft, dMidpointRight) :=
    match subject with
    | Some (l, r) => (l, r)
    | None => (0, 0)
    end in
  let origin :=
    if Z.eqb ref_id 0 then 0
    else if Z.eqb ref_id 1 then dMidpointLeft
    else if Z.eqb ref_id 2 then dMidpointRight
    else 0 in
  (origin, origin + ref_coord).

(** [Mirror::readXML] of src/plugins/Mirror.cpp (lines 52-187).  [m0] is
    the object before the call (members that [readXML] does not assign
    keep their value), [subject] the result of [getSubject()]. *)
Definition readXML (m0 : MirrorState) (subject : option (Q * Q))
    (xmlconfig : gmap string XMLValue) : Run MirrorState :=
  let pluginID := snd (getNodeValue_int xmlconfig "pluginID" 100) in
  let targetComp := snd (getNodeValue_int xmlconfig "cid" 0) in
  let id := snd (getNodeValue_int xmlconfig "position/refID" 0) in
  let ref_id := (id mod 65536)%Z in
  let ref_coord := snd (getNodeValue_real xmlconfig "position/coord" 0) in
  let '(ref_origin, coord) := update subject ref_id ref_coord in
  _ ← (if Z.ltb 0 ref_id then
          match subject with
          | Some _ => Done tt
          | None => Exit (-1)
          end
        else Done tt);
  let type := snd (getNodeValue_int xmlconfig "@type" 0) in
  let dir := snd (getNodeValue_int xmlconfig "direction" 0) in
  let strDirection := snd (getNodeValue_string xmlconfig "@dir" "unknown") in
  let direction :=
    if String.eqb "|-o" strDirection then MD_LEFT_MIRROR
    else if String.eqb "o-|" strDirection then MD_RIGHT_MIRROR
    else dir in
  let forceConstant :=
    if Z.eqb MT_FORCE_CONSTANT type then
      snd (getNodeValue_real xmlconfig "forceConstant" 100)
    else _forceConstant m0 in
  _ ← (if Z.eqb MT_ZERO_GRADIENT type then Exit (-1) else Done tt);
  _ ← (if Z.eqb MT_NORMDISTR_MB type then Exit (-1) else Done tt);
  meland ←
    (if Z.eqb MT_MELAND_2004 type then
       let fixed :=
         snd (getNodeValue_real xmlconfig "meland/fixed_probability"
                (_melandParams_fixed_probability_factor m0)) in
       let '(found, velo) :=
         getNodeValue_real xmlconfig "meland/velo_target"
           (_melandParams_velo_target m0) in
       if negb found then Exit (-2004) else Done (fixed, velo)
     else Done (_melandParams_fixed_probability_factor m0,
                _melandParams_velo_target m0));
  ramping ←
    (if Z.eqb MT_RAMPING type then
       let '(b1, start) :=
         getNodeValue_int xmlconfig "ramping/start"
           (_rampingParams_startStep m0) in
       let '(b2, stop) :=
         if b1 then getNodeValue_int xmlconfig "ramping/stop"
                      (_rampingParams_stopStep m0)
         else (false, _rampingParams_stopStep m0) in
       let '(b3, treatment) :=
         if b2 then getNodeValue_int xmlconfig "ramping/treatment"
                      (_rampingParams_treatment m0)
         else (false, _rampingParams_treatment m0) in
       if negb b3 then Exit (-1)
       else if Z.ltb stop start then Exit (-1)
       else if Z.eqb treatment 0 || Z.eqb treatment 1
            then Done (start, stop, treatment)
            else Exit (-1)
     else Done (_rampingParams_startStep m0, _rampingParams_stopStep m0,
                _rampingParams_treatment m0));
  let '(bRet, width) := getNodeValue_real xmlconfig "diffuse/width" 0 in
  Done (mkMirror pluginID targetComp ref_id ref_origin ref_coord coord
          type direction forceConstant (fst meland) (snd meland)
          (fst (fst ramping)) (snd (fst ramping)) (snd ramping)
          bRet width).

(** [Mirror::readXML] of the earlier revision of the plug-in (second
    source file of the plug-in, lines 42-151): the members it reads and
    its two Meland parameters. *)
Record MirrorState0 := mkMirror0 {
  _pluginID0 : Z;
  _yPos : Q;
  _forceConstant0 : Q;
  _type0 : Z;
  _direction0 : Z;
  _ratio : Q;
  _norm_fname : string * string;
  _norm_loaded : bool;
  _cv : Q * Q;
  _cids : list Z;
  _veloList : Z * (Q * Q * Q);
  _cv_bounds : Q * Q * Q * Q;
  _melandParams_use_probability_factor : bool;
  _melandParams_velo_target0 : Q
}.

(** [bRet = bRet && getNodeValue(...)] over a list of nodes: the reads
    stop at the first node that is missing. *)
Fixpoint read_reals (xmlconfig : gmap string XMLValue) (paths : list string)
    : option (list Q) :=
  match paths with
  | [] => Some []
  | p :: ps =>
      match getNodeValue_real xmlconfig p 0 with
      | (true, v) =>
          match read_reals xmlconfig ps with
          | Some vs => Some (v :: vs)
          | None => None
          end
      | (false, _) => None
      end
  end.

Definition readXML0 (m0 : MirrorState0) (xmlconfig : gmap string XMLValue)
    : Run MirrorState0 :=
  let pluginID := snd (getNodeValue_int xmlconfig "pluginID" 100) in
  let yPos := snd (getNodeValue_real xmlconfig "yPos" 0) in
  let forceConstant := snd (getNodeValue_real xmlconfig "forceConstant" 100) in
  let type := snd (getNodeValue_int xmlconfig "@type" 0) in
  let dir := snd (getNodeValue_int xmlconfig "direction" 0) in
  let strDirection := snd (getNodeValue_string xmlconfig "@dir" "unknown") in
  let direction :=
    if String.eqb "|<--" strDirection then MD_LEFT_MIRROR
    else if String.eqb "-->|" strDirection then MD_RIGHT_MIRROR
    else dir in
  let ratio := snd (getNodeValue_real xmlconfig "ratio" 1) in
  let '(fname, loaded) :=
    if Z.eqb MT_NORMDISTR_MB type then
      let '(b1, vxz) :=
        getNodeValue_string xmlconfig "norm/vxz" (fst (_norm_fname m0)) in
      let '(b2, vy) :=
        if b1 then getNodeValue_string xmlconfig "norm/vy"
                     (snd (_norm_fname m0))
        else (false, snd (_norm_fname m0)) in
      ((vxz, vy), b2 || _norm_loaded m0)
    else (_norm_fname m0, _norm_loaded m0) in
  let '(cv, cids, veloList, bounds) :=
    if Z.eqb MT_ZERO_GRADIENT type then
      match read_reals xmlconfig
              ["CV/width"; "CV/margin"; "CV/cids/original";
               "CV/cids/forward"; "CV/cids/backward"; "CV/cids/reflected";
               "CV/cids/permitted"; "CV/veloList/numvals";
               "CV/veloList/initvals/x"; "CV/veloList/initvals/y";
               "CV/veloList/initvals/z"] with
      | Some [width; margin; c1; c2; c3; c4; c5; numvals; vx; vy; vz] =>
          let '(cv_left, cv_right) :=
            if Z.eqb MD_LEFT_MIRROR direction then (yPos, yPos + width)
            else if Z.eqb MD_RIGHT_MIRROR direction then (yPos - width, yPos)
            else (fst (fst (fst (_cv_bounds m0))),
                  snd (fst (fst (_cv_bounds m0)))) in
          ((width, margin), map Qfloor [c1; c2; c3; c4; c5],
           (Qfloor numvals, (vx, vy, vz)),
           (cv_left, cv_right, cv_left - margin, cv_right + margin))
      | _ => (_cv m0, _cids m0, _veloList m0, _cv_bounds m0)
      end
    else (_cv m0, _cids m0, _veloList m0, _cv_bounds m0) in
  meland ←
    (if Z.eqb MT_MELAND_2004 type then
       let use_probability_factor := true in
       let velo_target := 4 # 10 in
       let '(b1, up) :=
         getNodeValue_int xmlconfig "meland/use_probability"
           (if use_probability_factor then 1 else 0)%Z in
       let '(b2, velo) :=
         if b1 then getNodeValue_real xmlconfig "meland/velo_target" velo_target
         else (false, velo_target) in
       if negb b2 then Exit (-2004)
       else Done (negb (Z.eqb up 0), velo)
     else Done (_melandParams_use_probability_factor m0,
                _melandParams_velo_target0 m0));
  Done (mkMirror0 pluginID yPos forceConstant type direction ratio
          fname loaded cv cids veloList bounds (fst meland) (snd meland)).

(** *** Notions for the statements about the plug-in *)

(** Whether [getNodeValue] finds a real (an integer) at a node. *)
Definition is_real (v : option XMLValue) : bool :=
  match v with
  | Some (XReal _) | Some (XInt _) => true
  | _ => false
  end.

Definition is_int (v : option XMLValue) : bool :=
  match v with
  | Some (XInt _) => true
  | _ => false
  end.

(** *** Sample configurations *)
Definition mirror_fresh : MirrorState :=
  mkMirror 100 0 0 0 0 0 0 0 100 0 0 0 0 0 false 0.

Definition mirror0_fresh : MirrorState0 :=
  mkMirror0 100 0 100 0 0 1 (EmptyString, EmptyString) false (0, 0) []
    (0%Z, (0, 0, 0)) (0, 0, 0, 0) true (4 # 10).

(** A Meland mirror ([type="5"]) without its parameters. *)
Definition cfg_meland_incomplete : gmap string XMLValue :=
  {[ "@type" := XInt 5 ]}.

End Mirror.

(* ===================================================================== *)
(** * Notions for the properties of the traversal                         *)
(* ===================================================================== *)

Module PairNotions.
Import SIMD Kernels VCP.

(** Equality of triples of doubles and of the macroscopic sums, component
    by component. *)
Definition v3_eq (a b : V3) : Prop :=
  comp ax_x a == comp ax_x b /\ comp ax_y a == comp ax_y b
  /\ comp ax_z a == comp ax_z b.

Definition sums_eq (s s' : Sums) : Prop :=
  sum_upot6lj s == sum_upot6lj s' /\ sum_upotXpoles s == sum_upotXpoles s'
  /\ sum_virial s == sum_virial s' /\ sum_myRF s == sum_myRF s'.



(** The site kind whose sites a running index of [_calculatePairs] counts:
    the kind of the source site of the loops that use it. *)
Definition idx_kind (v : IdxVar) : SiteKind :=
  match v with
  | i_ljc_idx => ljc
  | i_charge_idx | i_charge_dipole_idx | i_charge_quadrupole_idx => charges
  | i_dipole_charge_idx | i_dipole_idx | i_dipole_quadrupole_idx => dipoles
  | i_quadrupole_charge_idx | i_quadrupole_dipole_idx | i_quadrupole_idx =>
      quadrupoles
  end.

(** The arrays that [_calculatePairs] reaches through a pointer that is
    not [const]: the forces and the torques of the sites. *)
Definition is_accumulator (a : DoubleArray) : bool :=
  match a with
  | Comp _ljc_f _ | Comp _charges_f _ | Comp _dipoles_f _
  | Comp _quadrupoles_f _ | Comp _dipoles_M _ | Comp _quadrupoles_M _ => true
  | _ => false
  end.

(** [h'] is [h] but for the force and torque arrays of the two SoAs and
    the dist lookup of the second. *)
Definition only_accumulators_changed (soa1 soa2 : nat) (h h' : Heap) : Prop :=
  length h' = length h
  /\ forall p,
       soa_static (soa_at h' p) = soa_static (soa_at h p)
       /\ (forall a, is_accumulator a = false ->
             doubles (soa_at h' p) a = doubles (soa_at h p) a)
       /\ (forall a, length (doubles (soa_at h' p) a)
                     = length (doubles (soa_at h p) a))
       /\ (p <> soa2 -> masks (soa_at h' p) = masks (soa_at h p))
       /\ (p <> soa1 -> p <> soa2 -> soa_at h' p = soa_at h p).





(** The number of sites of one kind that the molecules before molecule [i]
    have: the index of the first such site of molecule [i]. *)
Fixpoint sites_before (k : SiteKind) (soa : CellDataSoA) (i : nat) : nat :=
  match i with
  | O => 0
  | S i' => sites_before k soa i' + mol_num_of k soa !!! i'
  end.




End PairNotions.

(** ** NeighbourCommunicationScheme.cpp: the three-stage scheme *)
Module Scheme3Stage.
Import SIMD HaloExchange.

Section Stage.
Context {P : Type} `{PartnerOps P}.

(** [for (i...) allDone &= _neighbours[d][i].op();]: the three-stage loops
    poll every neighbour of the dimension, whatever its rank. *)
Fixpoint poll_all1D (op : P -> bool * P) (ns : list P) (allDone : bool)
    : bool * list P :=
  match ns with
  | [] => (allDone, [])
  | n :: ns' =>
      let '(b, n') := op n in
      let '(allDone', ns'') := poll_all1D op ns' (allDone && b) in
      (allDone', n' :: ns'')
  end.

Fixpoint recv_all1D (removeRecvDuplicates : bool) (ns : list P)
    (c : ParticleContainer) (allDone : bool)
    : bool * list P * ParticleContainer :=
  match ns with
  | [] => (allDone, [], c)
  | n :: ns' =>
      let '(b, n', c') := testRecv n c removeRecvDuplicates in
      let '(allDone', ns'', c'') :=
        recv_all1D removeRecvDuplicates ns' c' (allDone && b) in
      (allDone', n' :: ns'', c'')
  end.

(** [for (i...) _neighbours[d][i].deadlockDiagnosticSendRecv();] *)
Definition diagnostics1D (ns : list P) : list LogEvent :=
  map deadlockDiagnosticSendRecv (seq 0 (length ns)).

(** The loop [while (not allDone)] of [finalizeExchangeMoleculesMPI1D]
    (lines 225-268); [clock] as in [finalize_loop]. *)
Fixpoint finalize_loop1D (clock : list Q) (startTime waitCounter
    deadlockTimeOut : Q) (rank : Z) (removeRecvDuplicates : bool)
    (ns : list P) (c : ParticleContainer) (lg : list LogEvent)
    : Exchange P :=
  match clock with
  | [] => mkExchange StillPolling ns c lg
  | now :: clock' =>
      let allDone := true in
      let '(allDone, ns) := poll_all1D testSend ns allDone in
      let '(allDone, ns) := poll_all1D iprobeCount ns allDone in
      let '(allDone, ns, c) := recv_all1D removeRecvDuplicates ns c allDone in
      let waitingTime := now - startTime in
      let '(waitCounter, lg) :=
        if Qlt_bool waitCounter waitingTime then
          (waitCounter + 1,
           lg ++ DeadlockWarning rank waitCounter :: diagnostics1D ns)
        else (waitCounter, lg) in
      if Qlt_bool deadlockTimeOut waitingTime then
        mkExchange (Exited 457) ns c
          (lg ++ DeadlockError rank deadlockTimeOut :: diagnostics1D ns)
      else if allDone then mkExchange Returned ns c lg
      else finalize_loop1D clock' startTime waitCounter deadlockTimeOut
             rank removeRecvDuplicates ns c lg
  end.

(** [NeighbourCommunicationScheme3Stage::finalizeExchangeMoleculesMPI1D]
    (lines 211-270).  [coversWholeDomain_d] is [_coversWholeDomain[d]],
    [neighbours_d] is [_neighbours[d]]. *)
Definition finalizeExchangeMoleculesMPI1D (coversWholeDomain_d : bool)
    (neighbours_d : list P) (moleculeContainer : ParticleContainer)
    (removeRecvDuplicates : bool) (rank : Z) (startTime : Q)
    (clock : list Q) : Exchange P :=
  if coversWholeDomain_d then
    mkExchange Returned neighbours_d moleculeContainer []
  else
    let waitCounter := 1 in
    let deadlockTimeOut := 60 in
    finalize_loop1D clock startTime waitCounter deadlockTimeOut rank
      removeRecvDuplicates neighbours_d moleculeContainer [].

End Stage.

(** The members of [CommunicationPartner] that
    [convert1StageTo3StageNeighbours] calls (CommunicationPartner.cpp is
    not among the sources): the function is parametric in them. *)
Class FaceOps (P : Type) := {
  isFaceCommunicator : P -> bool;
  getFaceCommunicationDirection : P -> nat;
  enlargeInOtherDirections : P -> nat -> Q -> P
}.

(** [NeighbourCommunicationScheme3Stage::convert1StageTo3StageNeighbours]
    (lines 302-316).  [neighbours[d].push_back(x)] with [d] beyond the
    vector is undefined in the source; here it leaves the vector as it
    is. *)
Definition convert1StageTo3StageNeighbours {P : Type} `{FaceOps P}
    (commPartners : list P) (neighbours : list (list P)) (cutoffRadius : Q)
    : list (list P) :=
  fold_left
    (fun (neighbours : list (list P)) (commPartner : P) =>
       if negb (isFaceCommunicator commPartner) then neighbours
       else
         let d := getFaceCommunicationDirection commPartner in
         let neighbours := <[d := neighbours !!! d ++ [commPartner]]> neighbours in
         (* neighbours[d].back().enlargeInOtherDirections(d, cutoffRadius) *)
         <[d := match reverse (neighbours !!! d) with
                | [] => []
                | lastp :: before =>
                    reverse (enlargeInOtherDirections lastp d cutoffRadius
                             :: before)
                end]> neighbours)
    commPartners neighbours.

(** A sample partner for [convert1StageTo3StageNeighbours]: whether it
    shares a face, in which direction, and by how much it has been
    enlarged. *)
#[global] Instance sample_FaceOps : FaceOps (bool * nat * Q) := {
  isFaceCommunicator p := fst (fst p);
  getFaceCommunicationDirection p := snd (fst p);
  enlargeInOtherDirections p d cutoffRadius := (fst p, snd p + cutoffRadius)
}.

End Scheme3Stage.

(** The waiting times that the warnings of a log name, in order. *)
Fixpoint warning_counters (lg : list HaloExchange.LogEvent) : list Q :=
  match lg with
  | [] => []
  | HaloExchange.DeadlockWarning _ w :: lg' => w :: warning_counters lg'
  | _ :: lg' => warning_counters lg'
  end.

(** ** Mirror.cpp: the velocity change after the forces *)
Module MirrorForces.
Import SIMD Mirror.

(** The molecule behind the iterator of the container (Molecule.h is not
    among the sources): the operations that [VelocityChange] calls on it,
    [it->v(d)], [it->r(d)], [it->componentid()], [it->setv(d, x)] and
    [it->Fadd(a)]. *)
Class MoleculeOps (M : Type) := {
  v : M -> nat -> Q;
  r : M -> nat -> Q;
  componentid : M -> Z;
  setv : M -> nat -> Q -> M;
  Fadd : M -> Q * Q * Q -> M
}.

(** [std::max(a, b)] and [std::min(a, b)]. *)
Definition std_max (a b : Q) : Q := if Qlt_bool a b then b else a.

Definition std_min (a b : Q) : Q := if Qlt_bool b a then b else a.

(** The region that [VelocityChange] iterates over, if any: the bounding
    box of the container, cut at the mirror (lines 421-440). *)
Definition mirror_region (m : MirrorState) (bbMin bbMax : Q * Q * Q)
    : option ((Q * Q * Q) * (Q * Q * Q)) :=
  let '(min0, min1, min2) := bbMin in
  let '(max0, max1, max2) := bbMax in
  if (Z.eqb (_direction m) MD_RIGHT_MIRROR
      && Qlt_bool (_position_coord m) max1)
     || (Z.eqb (_direction m) MD_LEFT_MIRROR
         && Qlt_bool min1 (_position_coord m))
  then
    if Z.eqb (_direction m) MD_RIGHT_MIRROR then
      Some ((min0, std_max (_position_coord m) min1, min2), bbMax)
    else if Z.eqb (_direction m) MD_LEFT_MIRROR then
      Some (bbMin, (max0, std_min (_position_coord m) max1, max2))
    else Some (bbMin, bbMax)
  else None.

Section Molecules.
Context {M : Type} `{MoleculeOps M}.

(** The body of the loop over the molecules of the region
    (lines 449-471); [cid_ub] is a [uint32_t]. *)
Definition velocity_change_body (m : MirrorState) (it : M) : M :=
  let vy := v it 1 in
  let cid_ub := ((componentid it + 1) mod 2 ^ 32)%Z in
  if negb (Z.eqb (_targetComp m) 0) && negb (Z.eqb cid_ub (_targetComp m))
  then it
  else if Z.eqb MT_REFLECT (_type m) then
    if (Z.eqb MD_RIGHT_MIRROR (_direction m) && Qlt_bool 0 vy)
       || (Z.eqb MD_LEFT_MIRROR (_direction m) && Qlt_bool vy 0)
    then setv it 1 (- vy)
    else it
  else if Z.eqb MT_FORCE_CONSTANT (_type m) then
    let ry := r it 1 in
    let distance := _position_coord m - ry in
    Fadd it (0, _forceConstant m * distance, 0)
  else it.

(** [Mirror::VelocityChange] (lines 419-475).  The container is the list
    of its molecules; [inRegion low high it] says whether the region
    iterator of the container (ParticleContainer is not among the sources)
    visits the molecule [it]. *)
Definition VelocityChange (inRegion : Q * Q * Q -> Q * Q * Q -> M -> bool)
    (m : MirrorState) (bbMin bbMax : Q * Q * Q)
    (particleContainer : list M) : list M :=
  match mirror_region m bbMin bbMax with
  | Some (regionLowCorner, regionHighCorner) =>
      map (fun it => if inRegion regionLowCorner regionHighCorner it
                     then velocity_change_body m it else it)
        particleContainer
  | None => particleContainer
  end.

(** [Mirror::afterForces] (lines 372-378). *)
Definition afterForces := VelocityChange.

(** Whether a molecule moves towards the mirror: up for a right mirror,
    down for a left one. *)
Definition moves_towards (m : MirrorState) (it : M) : bool :=
  (Z.eqb MD_RIGHT_MIRROR (_direction m) && Qlt_bool 0 (v it 1))
  || (Z.eqb MD_LEFT_MIRROR (_direction m) && Qlt_bool (v it 1) 0).

End Molecules.

(** A sample molecule: the id of its component, its position, velocity
    and force. *)
Record SampleMolecule := mkSampleMolecule {
  sample_cid : Z;
  sample_r : Q * Q * Q;
  sample_v : Q * Q * Q;
  sample_F : Q * Q * Q
}.

Definition get3 (a : Q * Q * Q) (d : nat) : Q :=
  match d with
  | 0%nat => fst (fst a)
  | 1%nat => snd (fst a)
  | _ => snd a
  end.

Definition set3 (a : Q * Q * Q) (d : nat) (x : Q) : Q * Q * Q :=
  match d with
  | 0%nat => (x, snd (fst a), snd a)
  | 1%nat => (fst (fst a), x, snd a)
  | _ => (fst (fst a), snd (fst a), x)
  end.

#[global] Instance SampleMolecule_ops : MoleculeOps SampleMolecule := {
  v it d := get3 (sample_v it) d;
  r it d := get3 (sample_r it) d;
  componentid := sample_cid;
  setv it d x :=
    mkSampleMolecule (sample_cid it) (sample_r it) (set3 (sample_v it) d x)
      (sample_F it);
  Fadd it a :=
    mkSampleMolecule (sample_cid it) (sample_r it) (sample_v it)
      (fst (fst (sample_F it)) + fst (fst a),
       snd (fst (sample_F it)) + snd (fst a),
       snd (sample_F it) + snd a)
}.

(** A reflecting mirror at y = 5 that reflects to the left, a region
    iterator that visits the molecules inside the box, and a molecule
    that moves up behind the mirror. *)
Definition mirror_reflect : MirrorState :=
  mkMirror 100 0 0 0 5 5 MT_REFLECT MD_RIGHT_MIRROR 100 0 0 0 0 0 false 0.

Definition in_box (low high : Q * Q * Q) (it : SampleMolecule) : bool :=
  let '(l0, l1, l2) := low in
  let '(h0, h1, h2) := high in
  let '(x, y, z) := sample_r it in
  Qle_bool l0 x && Qlt_bool x h0 && Qle_bool l1 y && Qlt_bool y h1
  && Qle_bool l2 z && Qlt_bool z h2.

Definition particle_up : SampleMolecule :=
  mkSampleMolecule 0 (1, 6, 1) (0, 2, 0) (0, 0, 0).

(** A reflecting mirror ([type="1"]) at y = 5. *)
Definition cfg_reflect : gmap string XMLValue :=
  {[ "@type" := XInt 1; "position/coord" := XReal 5 ]}.

End MirrorForces.

(* ===================================================================== *)
(** * Part II: theorems                                                   *)
(* ===================================================================== *)

(** ** The LJ kernel *)
Section KernelFacts.
Import SIMD Kernels.


Lemma applymask_zero (x : Q) : vcp_simd_applymask x 0%Z = 0.
Proof. reflexivity. Qed.



(** In a masked lane the force is zero and the 6 U_LJ sum is kept: the mask
    is applied to the reciprocal and to the shifted potential. *)
Lemma loopBodyLJ_masked_lane
    (calculateMacroscopic : bool)
    (m1_r_x m1_r_y m1_r_z r1_x r1_y r1_z : Q)
    (m2_r_x m2_r_y m2_r_z r2_x r2_y r2_z : Q)
    (sum_upot6lj sum_virial eps_24 sig2 shift6 : Q) :
  let out := _loopBodyLJ calculateMacroscopic
               m1_r_x m1_r_y m1_r_z r1_x r1_y r1_z
               m2_r_x m2_r_y m2_r_z r2_x r2_y r2_z
               sum_upot6lj sum_virial 0%Z eps_24 sig2 shift6 in
  let f := fst (fst out) in
  fst (fst f) == 0 /\ snd (fst f) == 0 /\ snd f == 0
  /\ snd (fst out) == sum_upot6lj /\ snd out == sum_virial.
Proof.
  intros out f. subst out f. unfold _loopBodyLJ.
  rewrite !applymask_zero.
  unfold vcp_simd_scalProd.
  destruct calculateMacroscopic; cbn [fst snd]; repeat split; ring.
Qed.

End KernelFacts.

(** ** The reaction field prefactor *)
Section ReactionField.
Import SIMD Kernels VCP.


(** The dipole-dipole loop body hands [_epsRFInvrc3] to [_loopBodyDipole]. *)
Lemma run_kernel_dipole_dipole `{SqrtOp} (macro : bool)
    (vcp : VectorizedCellProcessor) (h : Heap) (soa1 soa2 : nat)
    (m1_r_x m1_r_y m1_r_z : Q) (i j : nat) (s : Sums) (forceMask : Z) :
  run_kernel I_DipoleDipole macro vcp h soa1 soa2 (m1_r_x, m1_r_y, m1_r_z)
    i j s forceMask
  = let ld p a k := vcp_simd_load h p a k in
    let out :=
      _loopBodyDipole macro m1_r_x m1_r_y m1_r_z
        (ld soa1 (Comp _dipoles_r ax_x) i) (ld soa1 (Comp _dipoles_r ax_y) i)
        (ld soa1 (Comp _dipoles_r ax_z) i)
        (ld soa1 (Comp _dipoles_e ax_x) i) (ld soa1 (Comp _dipoles_e ax_y) i)
        (ld soa1 (Comp _dipoles_e ax_z) i) (ld soa1 _dipoles_p i)
        (ld soa2 (Comp _dipoles_m_r ax_x) j) (ld soa2 (Comp _dipoles_m_r ax_y) j)
        (ld soa2 (Comp _dipoles_m_r ax_z) j)
        (ld soa2 (Comp _dipoles_r ax_x) j) (ld soa2 (Comp _dipoles_r ax_y) j)
        (ld soa2 (Comp _dipoles_r ax_z) j)
        (ld soa2 (Comp _dipoles_e ax_x) j) (ld soa2 (Comp _dipoles_e ax_y) j)
        (ld soa2 (Comp _dipoles_e ax_z) j) (ld soa2 _dipoles_p j)
        (sum_upotXpoles s) (sum_virial s) (sum_myRF s) forceMask
        (_epsRFInvrc3 vcp) in
    (fst (fst (fst (fst (fst out)))), snd (fst (fst (fst (fst out)))),
     snd (fst (fst (fst out))),
     mkSums (sum_upot6lj s) (snd (fst (fst out))) (snd (fst out)) (snd out)).
Proof. destruct macro; reflexivity. Qed.





End ReactionField.

(** ** Loads and stores on the heap *)
Section HeapFacts.
Import SIMD Kernels VCP.

Lemma soa_at_insert_eq (h : Heap) p x : (p < length h)%nat -> soa_at (<[p := x]> h) p = x.
Proof. intros Hp. unfold soa_at. apply list_lookup_total_insert_eq. exact Hp. Qed.

Lemma soa_at_insert_ne (h : Heap) p p' x : p <> p' -> soa_at (<[p := x]> h) p' = soa_at h p'.
Proof. intros Hp. unfold soa_at. apply list_lookup_total_insert_ne. exact Hp. Qed.

Lemma soa_at_insert_ge (h : Heap) p p' x : (length h <= p)%nat -> soa_at (<[p := x]> h) p' = soa_at h p'.
Proof. intros Hp. rewrite list_insert_ge by exact Hp. reflexivity. Qed.

Lemma length_store_mask h p a j v : length (store_mask h p a j v) = length h.
Proof. unfold store_mask. apply length_insert. Qed.

Lemma length_vcp_simd_store h p a j v : length (vcp_simd_store h p a j v) = length h.
Proof. unfold vcp_simd_store. apply length_insert. Qed.

Lemma doubles_store_mask h p a j v p' :
  doubles (soa_at (store_mask h p a j v) p') = doubles (soa_at h p').
Proof.
  unfold store_mask.
  destruct (decide (p = p')) as [->|Hne]; [|rewrite soa_at_insert_ne by exact Hne; reflexivity].
  destruct (le_lt_dec (length h) p') as [Hge|Hlt].
  - rewrite soa_at_insert_ge by exact Hge. reflexivity.
  - rewrite soa_at_insert_eq by exact Hlt. reflexivity.
Qed.







Lemma static_store_mask h p a j v p' :
  soa_static (soa_at (store_mask h p a j v) p') = soa_static (soa_at h p').
Proof.
  unfold store_mask.
  destruct (decide (p = p')) as [->|Hne]; [|rewrite soa_at_insert_ne by exact Hne; reflexivity].
  destruct (le_lt_dec (length h) p') as [Hge|Hlt].
  - rewrite soa_at_insert_ge by exact Hge. reflexivity.
  - rewrite soa_at_insert_eq by exact Hlt. reflexivity.
Qed.

Lemma doubles_store_other h p a j v p' a' :
  p <> p' \/ a <> a' ->
  doubles (soa_at (vcp_simd_store h p a j v) p') a' = doubles (soa_at h p') a'.
Proof.
  intros Hne. unfold vcp_simd_store.
  destruct (decide (p = p')) as [->|Hp]; [|rewrite soa_at_insert_ne by exact Hp; reflexivity].
  destruct Hne as [Hne|Hne]; [congruence|].
  destruct (le_lt_dec (length h) p') as [Hge|Hlt].
  - rewrite soa_at_insert_ge by exact Hge. reflexivity.
  - rewrite soa_at_insert_eq by exact Hlt. cbn [set_double doubles].
    destruct (decide (a' = a)); [congruence|reflexivity].
Qed.

Lemma doubles_store_same h p a j v :
  (p < length h)%nat ->
  doubles (soa_at (vcp_simd_store h p a j v) p) a = <[j := v]> (doubles (soa_at h p) a).
Proof.
  intros Hlt. unfold vcp_simd_store. rewrite soa_at_insert_eq by exact Hlt.
  cbn [set_double doubles]. destruct (decide (a = a)); [reflexivity|congruence].
Qed.

Lemma length_doubles_store h p a j v p' a' :
  length (doubles (soa_at (vcp_simd_store h p a j v) p') a')
  = length (doubles (soa_at h p') a').
Proof.
  destruct (decide (p = p')) as [->|Hp];
    [|rewrite doubles_store_other by (left; exact Hp); reflexivity].
  destruct (decide (a = a')) as [->|Ha];
    [|rewrite doubles_store_other by (right; exact Ha); reflexivity].
  destruct (le_lt_dec (length h) p') as [Hge|Hlt].
  - unfold vcp_simd_store. rewrite soa_at_insert_ge by exact Hge. reflexivity.
  - rewrite doubles_store_same by exact Hlt. apply length_insert.
Qed.











End HeapFacts.

(** ** The dist lookup *)
Section DistLookup.
Import SIMD Kernels VCP.





Lemma ones_nonzero : vcp_simd_ones <> 0%Z.
Proof. discriminate. Qed.


Lemma Qlt_bool_iff a b : Qlt_bool a b = true <-> a < b.
Proof.
  unfold Qlt_bool. rewrite negb_true_iff. split.
  - intros E. apply Qnot_le_lt. intros Hle. apply Qle_bool_iff in Hle. congruence.
  - intros Hlt. destruct (Qle_bool b a) eqn:E; [|reflexivity].
    apply Qle_bool_iff in E. exfalso. exact (Qlt_not_le _ _ Hlt E).
Qed.





End DistLookup.

(** ** The traversal *)
Section Traversal.
Import SIMD Kernels VCP.
Context `{SqrtOp}.

Lemma Qplus_0_r_eq (x : Q) : x + 0 = x.
Proof.
  destruct x as [n d]. unfold Qplus. cbn [Qnum Qden].
  rewrite Z.mul_1_r, Z.add_0_r, Pos.mul_1_r. reflexivity.
Qed.

Lemma hSum_Add_zero (x : Q) : hSum_Add x vcp_simd_zerov = x.
Proof. apply Qplus_0_r_eq. Qed.

Lemma sums_eta (s : Sums) :
  mkSums (sum_upot6lj s) (sum_upotXpoles s) (sum_virial s) (sum_myRF s) = s.
Proof. destruct s; reflexivity. Qed.




Lemma fold_left_inv {A B} (I : A -> Prop) (f : A -> B -> A) (l : list B) :
  (forall a b, I a -> I (f a b)) -> forall a, I a -> I (fold_left f l a).
Proof.
  intros Hstep. induction l as [|b l IH]; intros a HI; cbn; [exact HI|].
  apply IH, Hstep, HI.
Qed.





Lemma vcp_eta (vcp : VectorizedCellProcessor) :
  mkVCP (_cutoffRadiusSquare vcp) (_LJCutoffRadiusSquare vcp) (_epsRFInvrc3 vcp)
    (_compIDs vcp) (_eps_sig vcp) (_shift6 vcp) (_upot6lj vcp)
    (_upotXpoles vcp) (_virial vcp) (_myRF vcp) = vcp.
Proof. destruct vcp; reflexivity. Qed.

Lemma accumulate_zero (vcp : VectorizedCellProcessor) :
  mkVCP (_cutoffRadiusSquare vcp) (_LJCutoffRadiusSquare vcp) (_epsRFInvrc3 vcp)
    (_compIDs vcp) (_eps_sig vcp) (_shift6 vcp)
    (hSum_Add (_upot6lj vcp) (sum_upot6lj sums_zero))
    (hSum_Add (_upotXpoles vcp) (sum_upotXpoles sums_zero))
    (hSum_Add (_virial vcp) (sum_virial sums_zero))
    (hSum_Add (_myRF vcp) (vcp_simd_sub zero (sum_myRF sums_zero))) = vcp.
Proof.
  cbn [sums_zero sum_upot6lj sum_upotXpoles sum_virial sum_myRF].
  change (vcp_simd_sub zero vcp_simd_zerov) with vcp_simd_zerov.
  rewrite !hSum_Add_zero. apply vcp_eta.
Qed.










(** **** An empty cell on either side: nothing happens *)
Lemma calculatePairs_empty_source pol macro vcp h soa1 soa2 :
  _mol_num (soa_at h soa1) = 0%nat ->
  _calculatePairs pol macro vcp h soa1 soa2 = (vcp, h).
Proof.
  intros E. unfold _calculatePairs. rewrite E. cbn [seq fold_left ls_sums ls_heap].
  rewrite accumulate_zero. reflexivity.
Qed.


Lemma calcDistLookup_no_centers pol h soa1 i i_center_idx rc2 soa2 lk m_r :
  calcDistLookup pol h soa1 i i_center_idx 0 rc2 soa2 lk m_r = (h, 0%Z).
Proof. reflexivity. Qed.

Lemma molecule_body_empty_target pol macro vcp soa1 soa2 e1 e2 e3 e4 st i :
  no_sites (soa_at (ls_heap st) soa2) ->
  ls_heap (molecule_body pol macro vcp soa1 soa2 e1 e2 e3 e4 st i) = ls_heap st
  /\ ls_sums (molecule_body pol macro vcp soa1 soa2 e1 e2 e3 e4 st i)
     = ls_sums st.
Proof.
  intros (E1 & E2 & E3 & E4). unfold molecule_body.
  rewrite E1, calcDistLookup_no_centers.
  rewrite E2, calcDistLookup_no_centers.
  rewrite E3, calcDistLookup_no_centers.
  rewrite E4, calcDistLookup_no_centers.
  split; reflexivity.
Qed.

Lemma calculatePairs_empty_target pol macro vcp h soa1 soa2 :
  no_sites (soa_at h soa2) ->
  _calculatePairs pol macro vcp h soa1 soa2 = (vcp, h).
Proof.
  intros E. unfold _calculatePairs.
  match goal with
  | |- context [fold_left ?f ?l ?a] =>
      assert (Hs : ls_heap (fold_left f l a) = h
                   /\ ls_sums (fold_left f l a) = sums_zero)
  end.
  { apply (fold_left_inv (fun st => ls_heap st = h /\ ls_sums st = sums_zero));
      [|split; reflexivity].
    intros st i [Hh Hs].
    destruct (molecule_body_empty_target pol macro vcp soa1 soa2
                (vcp_ceil_to_vec_size (_ljc_num (soa_at h soa2)))
                (vcp_ceil_to_vec_size (_charges_num (soa_at h soa2)))
                (vcp_ceil_to_vec_size (_dipoles_num (soa_at h soa2)))
                (vcp_ceil_to_vec_size (_quadrupoles_num (soa_at h soa2)))
                st i) as [Hh' Hs']; [rewrite Hh; exact E|].
    split; congruence. }
  destruct Hs as [-> ->]. rewrite accumulate_zero. reflexivity.
Qed.


(** C9.  If the cell is a halo cell or its SoA holds fewer than two
    molecules, [processCell] returns the processor (with its energy, virial
    and reaction field sums) and the heap (with every force and torque array
    of every cell) exactly as they were given. *)
Theorem processCell_noop (vcp : VectorizedCellProcessor) (h : Heap)
    (c : ParticleCell) :
  isHaloCell c = true
  \/ (_mol_num (soa_at h (getCellDataSoA c)) < 2)%nat ->
  processCell vcp h c = (vcp, h).
Proof.
  intros [Hh | Hn]; unfold processCell.
  - rewrite Hh. reflexivity.
  - apply Nat.ltb_lt in Hn. rewrite Hn, orb_true_r. reflexivity.
Qed.

(** C10.  If the SoA of one of the two cells holds no molecule,
    [processCellPair] returns the processor and the heap exactly as they were
    given, whatever the halo flags and the cell indices are. *)
Theorem processCellPair_empty_noop (vcp : VectorizedCellProcessor)
    (h : Heap) (c1 c2 : ParticleCell) :
  _mol_num (soa_at h (getCellDataSoA c1)) = 0%nat
  \/ _mol_num (soa_at h (getCellDataSoA c2)) = 0%nat ->
  processCellPair vcp h c1 c2 = (vcp, h).
Proof.
  intros [H1 | H2]; unfold processCellPair.
  - rewrite H1. reflexivity.
  - rewrite H2, orb_true_r. reflexivity.
Qed.
End Traversal.

Section TraversalSamples.
Import SIMD Kernels VCP.

(** Sample runs with the Heron square root. *)
Lemma processCell_noop_witness :
  processCell (H := heron_sqrt) lj_processor heap_two_cells
    (mkParticleCell false 1 1)
  = (lj_processor, heap_two_cells).
Proof.
  apply (processCell_noop (H := heron_sqrt)).
  right. vm_compute. lia.
Defined.

Lemma processCellPair_empty_noop_witness :
  processCellPair (H := heron_sqrt) lj_processor [lj_cell [0; 1]; empty_soa]
    cell_owned cell_halo
  = (lj_processor, [lj_cell [0; 1]; empty_soa]).
Proof.
  apply (processCellPair_empty_noop (H := heron_sqrt)).
  right. reflexivity.
Defined.


End TraversalSamples.

(** ** Newton's third law in the pair loops *)
Section Newton3.
Import SIMD Kernels VCP.
Context `{SqrtOp}.

















End Newton3.

Section Newton3Samples.
Import SIMD Kernels VCP.



End Newton3Samples.


(** ** The halo exchange *)
Section DeadlockDetector.
Import SIMD HaloExchange.
Context {P : Type} `{PartnerOps P}.

Lemma warnings_app l1 l2 : warnings (l1 ++ l2) = (warnings l1 + warnings l2)%nat.
Proof. unfold warnings. rewrite List.filter_app, length_app. reflexivity. Qed.

Lemma warnings_diagnostics_from i rank (ns : list P) :
  warnings (diagnostics_from i rank ns) = 0%nat.
Proof.
  revert i. induction ns as [|n ns IH]; intros i; cbn; [reflexivity|].
  destruct (negb _); cbn; apply IH.
Qed.

Lemma warnings_warning lg rank wc (ns : list P) :
  warnings (lg ++ DeadlockWarning rank wc :: diagnostics rank ns)
  = S (warnings lg).
Proof.
  rewrite warnings_app. unfold warnings at 2. cbn.
  fold (warnings (diagnostics rank ns)). unfold diagnostics.
  rewrite warnings_diagnostics_from. lia.
Qed.

(** One more clock reading after a run that is still polling. *)
Lemma finalize_loop_snoc (pre : list Q) (now t0 T : Q) (rank : Z) (rrd : bool) :
  forall (k : nat) (ns : list P) (c : ParticleContainer) (lg : list LogEvent),
    warnings lg = k ->
    let e0 := finalize_loop pre t0 (threshold k) T rank rrd ns c lg in
    let e := finalize_loop (pre ++ [now]) t0 (threshold k) T rank rrd ns c lg in
    outcome e0 = StillPolling ->
    log e =
      log e0
      ++ (if Qlt_bool (threshold (warnings (log e0))) (now - t0)
          then DeadlockWarning rank (threshold (warnings (log e0)))
               :: diagnostics rank (neighbours e)
          else [])
      ++ (if Qlt_bool T (now - t0)
          then DeadlockError rank T :: diagnostics rank (neighbours e)
          else [])
    /\ (if Qlt_bool T (now - t0) then outcome e = Exited 457
        else outcome e = Returned \/ outcome e = StillPolling).
Proof.
  induction pre as [|t pre IH]; intros k ns c lg Hk e0 e Hout.
  - subst e0 e. cbn [app finalize_loop log outcome neighbours].
    destruct (poll_all testSend rank ns true) as [a1 ns1].
    destruct (poll_all iprobeCount rank ns1 a1) as [a2 ns2].
    destruct (recv_all rank rrd ns2 c a2) as [[a3 ns3] c3].
    rewrite Hk.
    destruct (Qlt_bool (threshold k) (now - t0)) eqn:Hw;
      destruct (Qlt_bool T (now - t0)) eqn:HT; cbn [log outcome neighbours].
    + rewrite <- app_assoc. cbn [app]. split; reflexivity.
    + destruct a3; cbn [log outcome neighbours]; rewrite ?app_nil_r; split; auto.
    + split; reflexivity.
    + destruct a3; cbn [log outcome neighbours]; rewrite ?app_nil_r; split; auto.
  - subst e0 e. cbn [app finalize_loop] in *.
    destruct (poll_all testSend rank ns true) as [a1 ns1].
    destruct (poll_all iprobeCount rank ns1 a1) as [a2 ns2].
    destruct (recv_all rank rrd ns2 c a2) as [[a3 ns3] c3].
    destruct (Qlt_bool (threshold k) (t - t0)) eqn:Hw.
    + destruct (Qlt_bool T (t - t0)); [discriminate Hout|].
      destruct a3; [discriminate Hout|].
      apply (IH (S k)); [|exact Hout].
      rewrite warnings_warning. congruence.
    + destruct (Qlt_bool T (t - t0)); [discriminate Hout|].
      destruct a3; [discriminate Hout|].
      apply (IH k); assumption.
Qed.

(** Once a run has ended, later clock readings are never consumed. *)
Lemma finalize_loop_ended (pre post : list Q) (t0 T : Q) (rank : Z) (rrd : bool) :
  forall (wc : Q) (ns : list P) (c : ParticleContainer) (lg : list LogEvent),
    outcome (finalize_loop pre t0 wc T rank rrd ns c lg) <> StillPolling ->
    finalize_loop (pre ++ post) t0 wc T rank rrd ns c lg
    = finalize_loop pre t0 wc T rank rrd ns c lg.
Proof.
  induction pre as [|t pre IH]; intros wc ns c lg Hout.
  - cbn in Hout. congruence.
  - cbn [app finalize_loop] in *.
    destruct (poll_all testSend rank ns true) as [a1 ns1].
    destruct (poll_all iprobeCount rank ns1 a1) as [a2 ns2].
    destruct (recv_all rank rrd ns2 c a2) as [[a3 ns3] c3].
    destruct (Qlt_bool wc (t - t0)); destruct (Qlt_bool T (t - t0));
      try reflexivity; destruct a3; try reflexivity; apply IH; exact Hout.
Qed.

Lemma finalize_flag (covers : bool * bool * bool) (ns : list P)
    (c : ParticleContainer) (rrd : bool) (rank : Z) (t0 : Q) (clock : list Q) :
  finalizeExchangeMoleculesMPI covers ns c rrd rank t0 clock
  = finalize_loop clock t0 1 60 rank
      (rrd && fst (fst covers) && snd (fst covers) && snd covers) ns c [].
Proof. destruct covers as [[c0 c1] c2]. reflexivity. Qed.

(** C6 (amended).  One more pass of the loop after a run that is still
    polling: if the waiting time exceeds the wait counter (1 s, then one
    second more with each warning), a warning and the diagnostics of every
    neighbour of another rank are logged; if it exceeds 60 s, a constant of
    the function, the error and the same diagnostics are logged and the
    process exits with code 457, whether or not the exchange completed in
    that pass; otherwise the function returns or goes on polling. *)
Theorem finalize_deadlock_detector (covers : bool * bool * bool) (ns : list P)
    (c : ParticleContainer) (rrd : bool) (rank : Z) (t0 : Q)
    (pre : list Q) (now : Q) :
  let run := finalizeExchangeMoleculesMPI covers ns c rrd rank t0 in
  outcome (run pre) = StillPolling ->
  let e := run (pre ++ [now]) in
  let waitingTime := now - t0 in
  let waitCounter := threshold (warnings (log (run pre))) in
  log e =
    log (run pre)
    ++ (if Qlt_bool waitCounter waitingTime
        then DeadlockWarning rank waitCounter :: diagnostics rank (neighbours e)
        else [])
    ++ (if Qlt_bool 60 waitingTime
        then DeadlockError rank 60 :: diagnostics rank (neighbours e)
        else [])
  /\ (60 < waitingTime ->
      outcome e = Exited 457 /\ forall post, run ((pre ++ [now]) ++ post) = e)
  /\ (~ 60 < waitingTime -> outcome e = Returned \/ outcome e = StillPolling).
Proof.
  intros run Hpre e waitingTime waitCounter.
  subst run e waitingTime waitCounter. cbv beta in *.
  rewrite !finalize_flag in *.
  set (flag := rrd && fst (fst covers) && snd (fst covers) && snd covers) in *.
  pose proof (finalize_loop_snoc pre now t0 60 rank flag 0 ns c [] eq_refl Hpre)
    as [Hlog Hout].
  cbn [threshold] in Hlog, Hout.
  split; [exact Hlog|]. split.
  - intros Hlt. apply Qlt_bool_iff in Hlt. rewrite Hlt in Hout.
    split; [exact Hout|]. intros post. rewrite finalize_flag. fold flag.
    apply finalize_loop_ended. rewrite Hout. discriminate.
  - intros Hge. destruct (Qlt_bool 60 (now - t0)) eqn:E; [|exact Hout].
    apply Qlt_bool_iff in E. contradiction.
Qed.

End DeadlockDetector.

Section DeadlockSamples.
Import SIMD HaloExchange.

(** A neighbour that is not done at the first pass, read at 61 s. *)
Lemma finalize_deadlock_detector_witness :
  outcome (finalizeExchangeMoleculesMPI (false, false, false) [partner_slow]
             [] false 0 0 ([] ++ [61])) = Exited 457.
Proof.
  refine (proj1 (proj1 (proj2 (finalize_deadlock_detector (false, false, false)
            [partner_slow] [] false 0 0 [] 61 _)) _)).
  - reflexivity.
  - vm_compute. reflexivity.
Defined.

(** The timeout is not a setting: with 120 s configured, the loop as the
    spec words it returns at the second pass, read at 62 s; the function
    exits at the first, read at 61 s. *)
Lemma deadlock_timeout_not_configurable :
  outcome (finalize_with_configured_timeout 120 (false, false, false)
             [partner_slow] [] false 0 0 [61; 62]) = Returned
  /\ outcome (finalizeExchangeMoleculesMPI (false, false, false)
                [partner_slow] [] false 0 0 [61; 62]) = Exited 457.
Proof. split; vm_compute; reflexivity. Qed.

End DeadlockSamples.


Section DuplicateRemoval.
Import SIMD HaloExchange.

Lemma has_id_false c i : has_id c i = false -> i ∉ ids c.
Proof.
  unfold has_id, ids. intros Hf Hin.
  apply list_elem_of_In, in_map_iff in Hin as [m [Hm Hin]].
  assert (existsb (fun m => Z.eqb (id m) i) c = true) as E.
  { apply existsb_exists. exists m. split; [assumption|]. apply Z.eqb_eq. assumption. }
  congruence.
Qed.

Lemma addHaloParticle_NoDup c m :
  NoDup (ids c) -> NoDup (ids (addHaloParticle true c m)).
Proof.
  intros Hnd. unfold addHaloParticle. cbn [andb].
  destruct (has_id c (id m)) eqn:E; [assumption|].
  unfold ids. rewrite map_app. cbn [map].
  apply NoDup_app. split; [exact Hnd|]. split.
  - intros x Hx Hm. apply list_elem_of_singleton in Hm. subst x.
    exact (has_id_false c (id m) E Hx).
  - apply NoDup_singleton.
Qed.

Lemma unpack_NoDup ms : forall c, NoDup (ids c) -> NoDup (ids (unpack true c ms)).
Proof.
  unfold unpack. induction ms as [|m ms IH]; intros c Hnd; cbn [fold_left].
  - assumption.
  - apply IH, addHaloParticle_NoDup, Hnd.
Qed.

Lemma testRecv_NoDup (p : CommunicationPartner) c :
  NoDup (ids c) -> NoDup (ids (snd (testRecv p c true))).
Proof.
  intros Hnd. cbn [testRecv CommunicationPartner_ops].
  destruct (msgReceived p); [assumption|].
  destruct (countPolls p); [|assumption].
  destruct (recvPolls p); [|assumption].
  cbn [snd]. apply unpack_NoDup, Hnd.
Qed.






End DuplicateRemoval.


(** ** The exit codes of the mirror plugin *)
Section MirrorExit.
Import Mirror.

Lemma getNodeValue_real_found cfg path x :
  fst (getNodeValue_real cfg path x) = is_real (cfg !! path).
Proof. unfold getNodeValue_real. destruct (cfg !! path) as [[]|]; reflexivity. Qed.

Lemma getNodeValue_int_found cfg path x :
  fst (getNodeValue_int cfg path x) = is_int (cfg !! path).
Proof. unfold getNodeValue_int. destruct (cfg !! path) as [[]|]; reflexivity. Qed.

Lemma bind_exit {A B} (k : A -> Run B) code : (Exit code ≫= k) = Exit code.
Proof. reflexivity. Qed.

Lemma bind_done {A B} (k : A -> Run B) a : (Done a ≫= k) = k a.
Proof. reflexivity. Qed.

(** X14.  Every exit of [readXML] is with code -1 or -2004. *)
Lemma readXML_exit_codes m0 subject xmlconfig code :
  readXML m0 subject xmlconfig = Exit code -> code = (-1)%Z \/ code = (-2004)%Z.
Proof.
  unfold readXML.
  destruct (update _ _ _) as [ref_origin coord].
  repeat match goal with
  | |- context [if ?b then _ else _] => destruct b
  | |- context [match ?s with Some _ => _ | None => _ end] => destruct s
  | |- context [let '(_, _) := ?p in _] => destruct p
  | |- (Exit _ ≫= _) = _ -> _ => rewrite bind_exit
  | |- (Done _ ≫= _) = _ -> _ => rewrite bind_done
  end; intros E; inversion E; auto.
Qed.


(** C7 (amended).  When the mirror type read from the configuration is
    Meland2004 and the target velocity is missing or not a number, [readXML]
    ends the program with the argument -2004 given to [Simulation::exit]
    (unless it has already exited with -1 because a reference id is set and
    no subject is there); the older [readXML] does so also when the
    use-probability setting is missing or not an integer. *)
Theorem readXML_meland_incomplete (m0 : MirrorState) (m0' : MirrorState0)
    (subject : option (Q * Q)) (xmlconfig : gmap string XMLValue) :
  snd (getNodeValue_int xmlconfig "@type" 0) = MT_MELAND_2004 ->
  (is_real (xmlconfig !! "meland/velo_target") = false ->
   ((0 < snd (getNodeValue_int xmlconfig "position/refID" 0) mod 65536)%Z ->
    subject <> None) ->
   readXML m0 subject xmlconfig = Exit (-2004))
  /\ (is_int (xmlconfig !! "meland/use_probability") = false
      \/ is_real (xmlconfig !! "meland/velo_target") = false ->
      readXML0 m0' xmlconfig = Exit (-2004)).
Proof.
  intros Ht. split.
  - intros Hv Hs. unfold readXML.
    destruct (update _ _ _) as [ref_origin coord].
    rewrite Ht.
    destruct (Z.ltb 0 _) eqn:Hid.
    + apply Z.ltb_lt in Hid. specialize (Hs Hid).
      destruct subject as [s|]; [|congruence].
      rewrite bind_done. cbn [Z.eqb MT_ZERO_GRADIENT MT_NORMDISTR_MB MT_MELAND_2004 Pos.eqb].
      rewrite !bind_done.
      destruct (getNodeValue_real xmlconfig "meland/velo_target" _) as [found velo] eqn:E.
      pose proof (getNodeValue_real_found xmlconfig "meland/velo_target"
                    (_melandParams_velo_target m0)) as F.
      rewrite E, Hv in F. cbn in F. subst found. reflexivity.
    + rewrite bind_done. cbn [Z.eqb MT_ZERO_GRADIENT MT_NORMDISTR_MB MT_MELAND_2004 Pos.eqb].
      rewrite !bind_done.
      destruct (getNodeValue_real xmlconfig "meland/velo_target" _) as [found velo] eqn:E.
      pose proof (getNodeValue_real_found xmlconfig "meland/velo_target"
                    (_melandParams_velo_target m0)) as F.
      rewrite E, Hv in F. cbn in F. subst found. reflexivity.
  - intros Hmiss. unfold readXML0. rewrite Ht.
    cbn [Z.eqb MT_ZERO_GRADIENT MT_NORMDISTR_MB MT_MELAND_2004 Pos.eqb].
    destruct (getNodeValue_int xmlconfig "meland/use_probability" _) as [b1 up] eqn:E1.
    pose proof (getNodeValue_int_found xmlconfig "meland/use_probability" 1%Z) as F1.
    rewrite E1 in F1. cbn in F1.
    destruct b1.
    + destruct (getNodeValue_real xmlconfig "meland/velo_target" _) as [b2 velo] eqn:E2.
      pose proof (getNodeValue_real_found xmlconfig "meland/velo_target" (4 # 10)) as F2.
      rewrite E2 in F2. cbn in F2.
      destruct Hmiss as [Hm | Hm]; [congruence|].
      rewrite Hm in F2. subst b2. reflexivity.
    + reflexivity.
Qed.

(** A configuration that sets the type to 5 and nothing else. *)
Lemma readXML_meland_incomplete_witness :
  readXML mirror_fresh None cfg_meland_incomplete = Exit (-2004)
  /\ readXML0 mirror0_fresh cfg_meland_incomplete = Exit (-2004).
Proof.
  destruct (readXML_meland_incomplete mirror_fresh mirror0_fresh None
              cfg_meland_incomplete eq_refl) as [Hnew Hold].
  split.
  - apply Hnew.
    + vm_compute. reflexivity.
    + intros Hid. vm_compute in Hid. discriminate Hid.
  - apply Hold. left. vm_compute. reflexivity.
Defined.

(** On that configuration neither version exits with 2004. *)
Lemma meland_exit_code_is_not_2004 :
  readXML mirror_fresh None cfg_meland_incomplete = Exit (-2004)
  /\ readXML mirror_fresh None cfg_meland_incomplete <> Exit 2004
  /\ readXML0 mirror0_fresh cfg_meland_incomplete <> Exit 2004.
Proof.
  split; [vm_compute; reflexivity|].
  split; vm_compute; discriminate.
Qed.

End MirrorExit.

(* ===================================================================== *)
(** * Part III: further properties of the code                           *)
(* ===================================================================== *)

(** ** The kernels: masked lanes and exchanged sites *)

Section MaskedLanes.
Import SIMD Kernels VCP PairNotions.
Context `{SqrtOp}.

(** X1.  A lane whose force mask is zero contributes nothing, whatever
    the kernel and whatever the sites hold (coincident sites included):
    the force and both torques that [run_kernel] returns are zero and the
    four macroscopic sums are the ones passed in.  The square root of the
    processor must return 0 at 0. *)
Theorem run_kernel_masked_lane (it : Interaction) (macro : bool)
    (vcp : VectorizedCellProcessor) (h : Heap) (soa1 soa2 : nat) (m1_r : V3)
    (i_src j : nat) (s : Sums) :
  vcp_simd_sqrt 0 == 0 ->
  let out := run_kernel it macro vcp h soa1 soa2 m1_r i_src j s 0%Z in
  v3_eq (fst (fst (fst out))) v3_zero
  /\ v3_eq (snd (fst (fst out))) v3_zero
  /\ v3_eq (snd (fst out)) v3_zero
  /\ sums_eq (snd out) s.
Proof.
  intros Hsqrt out. subst out.
  destruct m1_r as [[mx my] mz], s as [s1 s2 s3 s4].
  unfold run_kernel, load3.
  destruct it;
    unfold _loopBodyLJ, _loopBodyCharge,
      _loopBodyChargeDipole, _loopBodyChargeQuadrupole, _loopBodyDipole,
      _loopBodyDipoleQuadrupole, _loopBodyQuadrupole;
    try destruct (unpackEps24Sig2 _ _ _) as [e24 sg2];
    rewrite ?applymask_zero;
    change (vcp_simd_applymask ?x 0%Z) with 0;
    generalize dependent (vcp_simd_sqrt 0); intros z Hz;
    destruct macro; unfold v3_eq, sums_eq, v3_zero;
    cbn [fst snd comp sum_upot6lj sum_upotXpoles sum_virial sum_myRF];
    unfold vcp_simd_scalProd, vcp_simd_sub, vcp_simd_zerov, vcp_simd_fnma,
      vcp_simd_fms, vcp_simd_fma, vcp_simd_add, vcp_simd_mul;
    (split; [split; [|split]|split; [split; [|split]|split; [split; [|split]|
       split; [|split; [|split]]]]]);
    try (rewrite Hz); ring.
Qed.
End MaskedLanes.

Section Exchange.
Import SIMD Kernels VCP PairNotions.

(** X2.  [_loopBodyLJ] with the two sites exchanged returns the opposite
    force, and the same energy and virial sums. *)
Theorem loopBodyLJ_exchange (macro : bool)
    (m1_r_x m1_r_y m1_r_z r1_x r1_y r1_z : Q)
    (m2_r_x m2_r_y m2_r_z r2_x r2_y r2_z : Q)
    (sum_upot6lj sum_virial : Q) (forceMask : Z) (eps_24 sig2 shift6 : Q) :
  let out12 := _loopBodyLJ macro m1_r_x m1_r_y m1_r_z r1_x r1_y r1_z
                 m2_r_x m2_r_y m2_r_z r2_x r2_y r2_z
                 sum_upot6lj sum_virial forceMask eps_24 sig2 shift6 in
  let out21 := _loopBodyLJ macro m2_r_x m2_r_y m2_r_z r2_x r2_y r2_z
                 m1_r_x m1_r_y m1_r_z r1_x r1_y r1_z
                 sum_upot6lj sum_virial forceMask eps_24 sig2 shift6 in
  v3_eq (fst (fst out21)) (v3_sub v3_zero (fst (fst out12)))
  /\ snd (fst out21) == snd (fst out12)
  /\ snd out21 == snd out12.
Proof.
  intros out12 out21. subst out12 out21. unfold _loopBodyLJ.
  unfold vcp_simd_scalProd, vcp_simd_applymask, v3_eq, v3_sub, v3_zero,
    vcp_simd_fma, vcp_simd_sub, vcp_simd_zerov.
  assert (Hr : (r2_x - r1_x) * (r2_x - r1_x) + (r2_y - r1_y) * (r2_y - r1_y)
               + (r2_z - r1_z) * (r2_z - r1_z)
               == (r1_x - r2_x) * (r1_x - r2_x) + (r1_y - r2_y) * (r1_y - r2_y)
                  + (r1_z - r2_z) * (r1_z - r2_z)) by ring.
  destruct (Z.eqb forceMask 0).
  - destruct macro; cbn [fst snd comp];
      (split; [split; [|split]|split]); ring.
  - assert (Hinv : one / ((r2_x - r1_x) * (r2_x - r1_x)
                          + (r2_y - r1_y) * (r2_y - r1_y)
                          + (r2_z - r1_z) * (r2_z - r1_z))
                   == one / ((r1_x - r2_x) * (r1_x - r2_x)
                             + (r1_y - r2_y) * (r1_y - r2_y)
                             + (r1_z - r2_z) * (r1_z - r2_z)))
      by (rewrite Hr; reflexivity).
    clear Hr. revert Hinv.
    generalize (one / ((r2_x - r1_x) * (r2_x - r1_x)
                       + (r2_y - r1_y) * (r2_y - r1_y)
                       + (r2_z - r1_z) * (r2_z - r1_z))).
    generalize (one / ((r1_x - r2_x) * (r1_x - r2_x)
                       + (r1_y - r2_y) * (r1_y - r2_y)
                       + (r1_z - r2_z) * (r1_z - r2_z))).
    intros w u Huw.
    destruct macro; cbn [fst snd comp];
      (split; [split; [|split]|split]); try rewrite Huw; ring.
Qed.
End Exchange.

Section KernelSamples.
Import SIMD Kernels VCP PairNotions.

Lemma run_kernel_masked_lane_witness :
  v3_eq (fst (fst (fst (run_kernel (H := heron_sqrt) I_ChargeCharge true
                          lj_processor heap_two_cells 0 1 (0, 0, 0) 0 0
                          sums_zero 0%Z))))
    v3_zero.
Proof.
  refine (proj1 (run_kernel_masked_lane (H := heron_sqrt) I_ChargeCharge true
                   lj_processor heap_two_cells 0 1 (0, 0, 0) 0 0 sums_zero _)).
  vm_compute. reflexivity.
Defined.

End KernelSamples.

(** ** Angular momentum of one pair *)

Section Moments.
Import SIMD Kernels VCP PairNotions.
Context `{SqrtOp}.


End Moments.

Section Moments2.
Import SIMD Kernels VCP PairNotions.
Context `{SqrtOp}.


End Moments2.

Section MomentSamples.
Import SIMD Kernels VCP PairNotions.


End MomentSamples.

(** ** The running indices of the molecule loop *)

Section Indices.
Import SIMD Kernels VCP PairNotions.
Context `{SqrtOp}.

Lemma bump_eq (ix : Idx) v n : bump ix v n v = (ix v + n)%nat.
Proof. unfold bump. destruct (decide (v = v)); [reflexivity|congruence]. Qed.

Lemma bump_ne (ix : Idx) v n v' : v' <> v -> bump ix v n v' = ix v'.
Proof. intros E. unfold bump. destruct (decide (v' = v)); [congruence|reflexivity]. Qed.

Lemma site_loop_fold_idx pol it macro vcp soa1 soa2 m1_r src initj inc end_j l :
  forall st v,
    ls_idx
      (fold_left
         (fun (st : LoopState) (local_i : nat) =>
            let i_src := src (ls_idx st) local_i in
            let j0 := InitJ pol (initj (ls_idx st) local_i) in
            let '(h, s) :=
              pair_loop it macro vcp soa1 soa2 m1_r i_src j0 end_j
                (ls_heap st) (ls_sums st) in
            mkLoopState h s
              match inc with
              | Some v => bump (ls_idx st) v 1
              | None => ls_idx st
              end) l st) v
    = match inc with
      | Some w => bump (ls_idx st) w (length l) v
      | None => ls_idx st v
      end.
Proof.
  induction l as [|a l IH]; intros st v; cbn [fold_left length].
  - destruct inc; [|reflexivity]. unfold bump. destruct (decide _); lia.
  - rewrite IH. destruct (pair_loop _ _ _ _ _ _ _ _ _ _ _) as [h s].
    cbn [ls_idx]. destruct inc; [|reflexivity].
    unfold bump. destruct (decide _); lia.
Qed.

Lemma site_loop_idx pol it macro vcp soa1 soa2 m1_r n src initj inc end_j st v :
  ls_idx (site_loop pol it macro vcp soa1 soa2 m1_r n src initj inc end_j st) v
  = match inc with
    | Some w => bump (ls_idx st) w n v
    | None => ls_idx st v
    end.
Proof.
  unfold site_loop. rewrite site_loop_fold_idx, length_seq. reflexivity.
Qed.

Lemma molecule_body_advances_indices (pol : ForcePolicy) (macro : bool)
    (vcp : VectorizedCellProcessor) (soa1 soa2 e1 e2 e3 e4 : nat)
    (st : LoopState) (i : nat) (v : IdxVar) :
  ls_idx (molecule_body pol macro vcp soa1 soa2 e1 e2 e3 e4 st i) v
  = (ls_idx st v
     + mol_num_of (idx_kind v) (soa_at (ls_heap st) soa1) !!! i)%nat.
Proof.
  unfold molecule_body.
  repeat match goal with
  | |- context [calcDistLookup ?a ?b ?c ?d ?e ?f ?g ?h ?i ?j] =>
      destruct (calcDistLookup a b c d e f g h i j) as [? ?]
  end.
  repeat match goal with
  | |- context [if Z.eqb ?b 0 then _ else _] => destruct (Z.eqb b 0)
  end;
  unfold bump_idx; cbn [ls_idx ls_heap ls_sums];
  destruct v; cbn [idx_kind mol_num_of];
  repeat first [ rewrite bump_eq
               | rewrite bump_ne by discriminate
               | rewrite site_loop_idx; cbn [ls_idx] ];
  lia.
Qed.
End Indices.

(** ** What the traversal writes to *)

Section Frame.
Import SIMD Kernels VCP PairNotions.
Context `{SqrtOp}.

Lemma oac_refl soa1 soa2 h : only_accumulators_changed soa1 soa2 h h.
Proof. split; [reflexivity|]. intros p. repeat split; reflexivity. Qed.

Lemma oac_trans soa1 soa2 h1 h2 h3 :
  only_accumulators_changed soa1 soa2 h1 h2 ->
  only_accumulators_changed soa1 soa2 h2 h3 ->
  only_accumulators_changed soa1 soa2 h1 h3.
Proof.
  intros [L1 F1] [L2 F2]. split; [congruence|]. intros p.
  destruct (F1 p) as (S1 & D1 & N1 & M1 & E1).
  destruct (F2 p) as (S2 & D2 & N2 & M2 & E2).
  repeat split.
  - congruence.
  - intros a Ha. rewrite D2, D1; auto.
  - intros a. rewrite N2, N1. reflexivity.
  - intros Hp. rewrite M2, M1; auto.
  - intros Hp1 Hp2. rewrite E2, E1; auto.
Qed.

Lemma static_vcp_simd_store h p a j v p' :
  soa_static (soa_at (vcp_simd_store h p a j v) p') = soa_static (soa_at h p').
Proof.
  unfold vcp_simd_store.
  destruct (decide (p = p')) as [->|Hne].
  - destruct (Nat.lt_ge_cases p' (length h)) as [Hlt|Hge].
    + rewrite soa_at_insert_eq by exact Hlt. reflexivity.
    + rewrite soa_at_insert_ge by exact Hge. reflexivity.
  - rewrite soa_at_insert_ne by exact Hne. reflexivity.
Qed.

Lemma masks_vcp_simd_store h p a j v p' :
  masks (soa_at (vcp_simd_store h p a j v) p') = masks (soa_at h p').
Proof.
  unfold vcp_simd_store.
  destruct (decide (p = p')) as [->|Hne].
  - destruct (Nat.lt_ge_cases p' (length h)) as [Hlt|Hge].
    + rewrite soa_at_insert_eq by exact Hlt. reflexivity.
    + rewrite soa_at_insert_ge by exact Hge. reflexivity.
  - rewrite soa_at_insert_ne by exact Hne. reflexivity.
Qed.

Lemma soa_at_vcp_simd_store_ne h p a j v p' :
  p <> p' -> soa_at (vcp_simd_store h p a j v) p' = soa_at h p'.
Proof. intros Hne. unfold vcp_simd_store. apply soa_at_insert_ne, Hne. Qed.

Lemma soa_at_store_mask_ne h p a j v p' :
  p <> p' -> soa_at (store_mask h p a j v) p' = soa_at h p'.
Proof. intros Hne. unfold store_mask. apply soa_at_insert_ne, Hne. Qed.

(** A store to a force or torque array of one of the two SoAs. *)
Lemma oac_store soa1 soa2 h p a j v :
  p = soa1 \/ p = soa2 -> is_accumulator a = true ->
  only_accumulators_changed soa1 soa2 h (vcp_simd_store h p a j v).
Proof.
  intros Hp Ha. split; [apply length_vcp_simd_store|]. intros p'.
  repeat split.
  - apply static_vcp_simd_store.
  - intros a' Ha'. apply doubles_store_other. right. congruence.
  - intros a'. apply length_doubles_store.
  - intros _. apply masks_vcp_simd_store.
  - intros H1 H2. apply soa_at_vcp_simd_store_ne. destruct Hp; congruence.
Qed.

(** A store to a dist lookup of the second SoA. *)
Lemma oac_store_mask soa1 soa2 h a j v :
  only_accumulators_changed soa1 soa2 h (store_mask h soa2 a j v).
Proof.
  split; [apply length_store_mask|]. intros p'.
  repeat split.
  - apply static_store_mask.
  - intros a' _. rewrite doubles_store_mask. reflexivity.
  - intros a'. rewrite doubles_store_mask. reflexivity.
  - intros Hp. rewrite soa_at_store_mask_ne by congruence. reflexivity.
  - intros _ Hp. apply soa_at_store_mask_ne. congruence.
Qed.

Lemma is_accumulator_f k c : is_accumulator (Comp (f_of k) c) = true.
Proof. destruct k; reflexivity. Qed.

Lemma is_accumulator_M k M_arr c :
  M_of k = Some M_arr -> is_accumulator (Comp M_arr c) = true.
Proof. destruct k; intros E; inversion E; reflexivity. Qed.

Lemma oac_add_store3 soa1 soa2 h p arr j v :
  p = soa1 \/ p = soa2 -> (forall c, is_accumulator (Comp arr c) = true) ->
  only_accumulators_changed soa1 soa2 h (vcp_simd_load_add_store3 h p arr j v).
Proof.
  intros Hp Ha. destruct v as [[v1 v2] v3]. unfold vcp_simd_load_add_store3.
  eapply oac_trans; [eapply oac_trans|]; apply oac_store; auto.
Qed.

Lemma oac_sub_store3 soa1 soa2 h p arr j v :
  p = soa1 \/ p = soa2 -> (forall c, is_accumulator (Comp arr c) = true) ->
  only_accumulators_changed soa1 soa2 h (vcp_simd_load_sub_store3 h p arr j v).
Proof.
  intros Hp Ha. destruct v as [[v1 v2] v3]. unfold vcp_simd_load_sub_store3.
  eapply oac_trans; [eapply oac_trans|]; apply oac_store; auto.
Qed.

Lemma oac_hSum_Add_Store3 soa1 soa2 h p arr j v :
  p = soa1 \/ p = soa2 -> (forall c, is_accumulator (Comp arr c) = true) ->
  only_accumulators_changed soa1 soa2 h (hSum_Add_Store3 h p arr j v).
Proof.
  intros Hp Ha. destruct v as [[v1 v2] v3]. unfold hSum_Add_Store3.
  eapply oac_trans; [eapply oac_trans|]; apply oac_store; auto.
Qed.

Lemma oac_pair_body soa1 soa2 it macro vcp m1_r i_src acc j :
  only_accumulators_changed soa1 soa2 (pa_heap acc)
    (pa_heap (pair_body it macro vcp soa1 soa2 m1_r i_src acc j)).
Proof.
  unfold pair_body. destruct (Z.ltb 0 _); [|apply oac_refl].
  destruct (run_kernel _ _ _ _ _ _ _ _ _ _ _) as [[[f M_src] M_tgt] s].
  assert (Hf : only_accumulators_changed soa1 soa2 (pa_heap acc)
                 (if source_adds it
                  then vcp_simd_load_sub_store3 (pa_heap acc) soa2
                         (f_of (tgt_kind it)) j f
                  else vcp_simd_load_add_store3 (pa_heap acc) soa2
                         (f_of (tgt_kind it)) j f)).
  { destruct (source_adds it);
      [apply oac_sub_store3 | apply oac_add_store3]; auto;
      intros c; apply is_accumulator_f. }
  destruct (source_adds it); cbn [pa_heap];
    (destruct (M_of (tgt_kind it)) as [M_arr|] eqn:EM; [|exact Hf]);
    (eapply oac_trans; [exact Hf|]);
    apply oac_add_store3; auto; intros c; eapply is_accumulator_M, EM.
Qed.

Lemma oac_pair_loop soa1 soa2 it macro vcp m1_r i_src j0 end_j h s :
  only_accumulators_changed soa1 soa2 h
    (fst (pair_loop it macro vcp soa1 soa2 m1_r i_src j0 end_j h s)).
Proof.
  unfold pair_loop. cbn [fst].
  set (acc := fold_left _ _ _).
  assert (Hacc : only_accumulators_changed soa1 soa2 h (pa_heap acc)).
  { subst acc.
    apply (fold_left_inv
             (fun a => only_accumulators_changed soa1 soa2 h (pa_heap a)));
      [|apply oac_refl].
    intros a b Ha. eapply oac_trans; [exact Ha|apply oac_pair_body]. }
  assert (Hf : only_accumulators_changed soa1 soa2 h
                 (hSum_Add_Store3 (pa_heap acc) soa1 (f_of (src_kind it))
                    i_src (sum_f1 acc))).
  { eapply oac_trans; [exact Hacc|].
    apply oac_hSum_Add_Store3; auto. intros c; apply is_accumulator_f. }
  destruct (M_of (src_kind it)) as [M_arr|] eqn:EM; [|exact Hf].
  eapply oac_trans; [exact Hf|].
  apply oac_hSum_Add_Store3; auto. intros c; eapply is_accumulator_M, EM.
Qed.

Lemma oac_site_loop soa1 soa2 pol it macro vcp m1_r n src initj inc end_j st :
  only_accumulators_changed soa1 soa2 (ls_heap st)
    (ls_heap (site_loop pol it macro vcp soa1 soa2 m1_r n src initj inc
                end_j st)).
Proof.
  unfold site_loop.
  apply (fold_left_inv
           (fun a => only_accumulators_changed soa1 soa2 (ls_heap st)
                       (ls_heap a))); [|apply oac_refl].
  intros a b Ha.
  pose proof (oac_pair_loop soa1 soa2 it macro vcp m1_r
                (src (ls_idx a) b) (InitJ pol (initj (ls_idx a) b)) end_j
                (ls_heap a) (ls_sums a)) as Hl.
  destruct (pair_loop _ _ _ _ _ _ _ _ _ _ _) as [h s]. cbn [fst] in Hl.
  cbn [ls_heap]. eapply oac_trans; eassumption.
Qed.

Lemma oac_calcDistLookup soa1 soa2 pol h i i_center_idx num rc2 lk m_r :
  only_accumulators_changed soa1 soa2 h
    (fst (calcDistLookup pol h soa1 i i_center_idx num rc2 soa2 lk m_r)).
Proof.
  unfold calcDistLookup.
  apply (fold_left_inv
           (fun a : Heap * Z => only_accumulators_changed soa1 soa2 h (fst a)));
    [|apply oac_refl].
  intros [h' cm] j Ha. cbn [fst] in *.
  eapply oac_trans; [exact Ha|apply oac_store_mask].
Qed.

Lemma oac_molecule_body soa1 soa2 pol macro vcp e1 e2 e3 e4 st i :
  only_accumulators_changed soa1 soa2 (ls_heap st)
    (ls_heap (molecule_body pol macro vcp soa1 soa2 e1 e2 e3 e4 st i)).
Proof.
  unfold molecule_body.
  repeat match goal with
  | |- context [calcDistLookup ?a ?b ?c ?d ?e ?f ?g ?h ?i ?j] =>
      let Hc := fresh "Hc" in
      let hh := fresh "hh" in
      let cm := fresh "cm" in
      pose proof (oac_calcDistLookup c h a b d e f g i j) as Hc;
      destruct (calcDistLookup a b c d e f g h i j) as [hh cm];
      cbn [fst] in Hc
  end.
  assert (Hl : only_accumulators_changed soa1 soa2 (ls_heap st) hh2).
  { eapply oac_trans; [eapply oac_trans; [eapply oac_trans|]|]; eassumption. }
  clear Hc Hc0 Hc1 Hc2.
  repeat match goal with
  | |- context [if Z.eqb ?b 0 then _ else _] => destruct (Z.eqb b 0)
  end;
  unfold bump_idx; cbn [ls_heap];
  repeat (eapply oac_trans; [|apply oac_site_loop]); cbn [ls_heap];
  exact Hl.
Qed.

Lemma calculatePairs_only_accumulators (pol : ForcePolicy) (macro : bool)
    (vcp : VectorizedCellProcessor) (h : Heap) (soa1 soa2 : nat) :
  only_accumulators_changed soa1 soa2 h
    (snd (_calculatePairs pol macro vcp h soa1 soa2)).
Proof.
  unfold _calculatePairs. cbn [snd].
  apply (fold_left_inv
           (fun a => only_accumulators_changed soa1 soa2 h (ls_heap a)));
    [|apply oac_refl].
  intros a i Ha. eapply oac_trans; [exact Ha|apply oac_molecule_body].
Qed.
(** X6.  [processCell] and [processCellPair] write to nothing but the
    force and torque arrays of the two SoAs and the dist lookups of the
    second: the heap keeps its length, every SoA its counts, every other
    array of doubles its contents and every array its length, and every
    other SoA is left as it is. *)
Theorem traversal_only_accumulators (vcp : VectorizedCellProcessor)
    (h : Heap) (c1 c2 : ParticleCell) :
  only_accumulators_changed (getCellDataSoA c1) (getCellDataSoA c1) h
    (snd (processCell vcp h c1))
  /\ only_accumulators_changed (getCellDataSoA c1) (getCellDataSoA c2) h
       (snd (processCellPair vcp h c1 c2)).
Proof.
  split.
  - unfold processCell. destruct (_ || _); [apply oac_refl|].
    apply calculatePairs_only_accumulators.
  - unfold processCellPair.
    repeat match goal with
    | |- context [if ?b then _ else _] => destruct b
    end; try apply oac_refl; apply calculatePairs_only_accumulators.
Qed.

(** X7.  When the first SoA holds no molecule or the second holds no
    site, [_calculatePairs] returns the processor and the heap as they
    were given, for both policies and with or without the macroscopic
    sums. *)
Theorem calculatePairs_nothing_to_do (pol : ForcePolicy) (macro : bool)
    (vcp : VectorizedCellProcessor) (h : Heap) (soa1 soa2 : nat) :
  _mol_num (soa_at h soa1) = 0%nat \/ no_sites (soa_at h soa2) ->
  _calculatePairs pol macro vcp h soa1 soa2 = (vcp, h).
Proof.
  intros [E|E];
    [apply calculatePairs_empty_source|apply calculatePairs_empty_target];
    exact E.
Qed.

End Frame.

Section FrameSamples.
Import SIMD Kernels VCP PairNotions.

Lemma calculatePairs_nothing_to_do_witness :
  _calculatePairs (H := heron_sqrt) CellPairPolicy_ true lj_processor
    [lj_cell [0; 1]; empty_soa] 0 1
  = (lj_processor, [lj_cell [0; 1]; empty_soa]).
Proof.
  apply (calculatePairs_nothing_to_do (H := heron_sqrt)).
  right. repeat split.
Defined.

End FrameSamples.

(** ** Conservation of the total force *)

Section Sums.
Import SIMD Kernels VCP PairNotions.

















End Sums.

Section Momentum.
Import SIMD Kernels VCP PairNotions.
Context `{SqrtOp}.




Lemma oac_static soa1 soa2 h h' p :
  only_accumulators_changed soa1 soa2 h h' ->
  soa_static (soa_at h' p) = soa_static (soa_at h p).
Proof. intros [_ F]. destruct (F p) as (S & _). exact S. Qed.






End Momentum.

Section Momentum2.
Import SIMD Kernels VCP PairNotions.
Context `{SqrtOp}.

Lemma static_mol_num_of k s s' :
  soa_static s = soa_static s' -> mol_num_of k s = mol_num_of k s'.
Proof. unfold soa_static. intros E. destruct k; cbn; congruence. Qed.


(** X5.  After the first [k] molecules of the molecule loop of
    [_calculatePairs], each of the ten running site indices is the number
    of sites of its kind that those molecules of the first SoA have: the
    index of the first such site of molecule [k], whichever of the pair
    loops the dist lookups let run. *)
Theorem molecule_loop_indices (pol : ForcePolicy) (macro : bool)
    (vcp : VectorizedCellProcessor) (h : Heap) (soa1 soa2 e1 e2 e3 e4 : nat)
    (s : Sums) (k : nat) (v : IdxVar) :
  ls_idx (fold_left (molecule_body pol macro vcp soa1 soa2 e1 e2 e3 e4)
            (seq 0 k) (mkLoopState h s (fun _ => 0%nat))) v
  = sites_before (idx_kind v) (soa_at h soa1) k.
Proof.
  set (body := molecule_body _ _ _ _ _ _ _ _ _).
  assert (Hgen : forall n a st,
            only_accumulators_changed soa1 soa2 h (ls_heap st) ->
            (forall w, ls_idx st w
                       = sites_before (idx_kind w) (soa_at h soa1) a) ->
            forall w, ls_idx (fold_left body (seq a n) st) w
                      = sites_before (idx_kind w) (soa_at h soa1) (a + n)).
  { induction n as [|n IH]; intros a st Ho Hidx w; cbn [seq fold_left].
    - rewrite Nat.add_0_r. apply Hidx.
    - replace (a + S n)%nat with (S a + n)%nat by lia. apply IH.
      + eapply oac_trans; [exact Ho|]. subst body. apply oac_molecule_body.
      + intros w'. subst body. rewrite molecule_body_advances_indices, Hidx.
        cbn [sites_before]. f_equal. f_equal.
        apply static_mol_num_of. eapply oac_static, Ho. }
  apply (Hgen k 0%nat); [apply oac_refl|]. intros w. reflexivity.
Qed.


End Momentum2.

Section MomentumSamples.
Import SIMD Kernels VCP PairNotions.


End MomentumSamples.

(** ** The exchange of molecules: exits, warnings and the three-stage scheme *)

Section ExchangeExtras.
Import SIMD HaloExchange.
Context {P : Type} `{PartnerOps P}.

Lemma finalize_loop_exit (clock : list Q) (t0 T : Q) (rank : Z) (rrd : bool) :
  forall wc (ns : list P) c lg code,
    outcome (finalize_loop clock t0 wc T rank rrd ns c lg) = Exited code ->
    code = 457%Z /\ exists now, In now clock /\ T < now - t0.
Proof.
  induction clock as [|now clock IH]; intros wc ns c lg code; cbn [finalize_loop].
  - cbn. discriminate.
  - destruct (poll_all testSend rank ns true) as [a1 ns1].
    destruct (poll_all iprobeCount rank ns1 a1) as [a2 ns2].
    destruct (recv_all rank rrd ns2 c a2) as [[a3 ns3] c3].
    destruct (Qlt_bool wc (now - t0)); destruct (Qlt_bool T (now - t0)) eqn:ET;
      cbn [outcome];
      try (intros E; inversion E; split; [reflexivity|];
           exists now; split; [left; reflexivity|apply Qlt_bool_iff, ET]);
      destruct a3; cbn [outcome]; try discriminate;
      intros E; apply IH in E as [-> [now' [Hin Hlt]]];
      (split; [reflexivity|]; exists now'; split; [right; exact Hin|exact Hlt]).
Qed.

Lemma finalize_loop_silent (clock : list Q) (t0 T wc : Q) (rank : Z) (rrd : bool) :
  (forall now, In now clock -> now - t0 <= wc) ->
  forall (ns : list P) c lg,
    log (finalize_loop clock t0 wc T rank rrd ns c lg) = lg
    \/ exists now, In now clock /\ T < now - t0.
Proof.
  induction clock as [|now clock IH]; intros Hfast ns c lg; cbn [finalize_loop].
  - left. reflexivity.
  - destruct (poll_all testSend rank ns true) as [a1 ns1].
    destruct (poll_all iprobeCount rank ns1 a1) as [a2 ns2].
    destruct (recv_all rank rrd ns2 c a2) as [[a3 ns3] c3].
    destruct (Qlt_bool wc (now - t0)) eqn:EW.
    { apply Qlt_bool_iff in EW. specialize (Hfast now (or_introl eq_refl)).
      exfalso. apply (Qlt_irrefl wc). eapply Qlt_le_trans; eassumption. }
    destruct (Qlt_bool T (now - t0)) eqn:ET.
    { right. exists now. split; [left; reflexivity|apply Qlt_bool_iff, ET]. }
    destruct a3; cbn [log]; [left; reflexivity|].
    destruct (IH (fun x Hx => Hfast x (or_intror Hx)) ns3 c3 lg)
      as [E|[now' [Hin Hlt]]]; [left; exact E|].
    right. exists now'. split; [right; exact Hin|exact Hlt].
Qed.

(** X9.  [finalizeExchangeMoleculesMPI] exits only with code 457 and only
    after a clock reading more than 60 seconds after the start; when no
    reading is more than one second after the start it logs nothing. *)
Theorem finalize_exits_only_on_timeout (covers : bool * bool * bool)
    (ns : list P) (c : ParticleContainer) (rrd : bool) (rank : Z) (t0 : Q)
    (clock : list Q) :
  let e := finalizeExchangeMoleculesMPI covers ns c rrd rank t0 clock in
  (forall code, outcome e = Exited code ->
     code = 457%Z /\ exists now, In now clock /\ 60 < now - t0)
  /\ ((forall now, In now clock -> now - t0 <= 1) -> log e = []).
Proof.
  intros e. subst e. rewrite finalize_flag. split.
  - intros code. apply finalize_loop_exit.
  - intros Hfast.
    destruct (finalize_loop_silent clock t0 60 1 rank
                (rrd && (covers.1).1 && (covers.1).2 && covers.2) Hfast ns c [])
      as [E|[now [Hin Hlt]]]; [exact E|].
    exfalso. specialize (Hfast now Hin).
    assert (60 < 1) as Habs by (eapply Qlt_le_trans; eassumption).
    discriminate Habs.
Qed.
End ExchangeExtras.

Section ExchangeExtras2.
Import SIMD HaloExchange Scheme3Stage.
Context {P : Type} `{PartnerOps P}.

Lemma poll_all_own_rank (op : P -> bool * P) rank (ns : list P) allDone :
  (forall n, In n ns -> getRank n = rank) ->
  poll_all op rank ns allDone = (allDone, ns).
Proof.
  induction ns as [|n ns IH]; intros Hown; cbn [poll_all]; [reflexivity|].
  rewrite (Hown n (or_introl eq_refl)), Z.eqb_refl. cbn [negb].
  rewrite IH by (intros n' Hn'; apply Hown; right; exact Hn'). reflexivity.
Qed.

Lemma recv_all_own_rank rank rrd (ns : list P) c allDone :
  (forall n, In n ns -> getRank n = rank) ->
  recv_all rank rrd ns c allDone = (allDone, ns, c).
Proof.
  induction ns as [|n ns IH]; intros Hown; cbn [recv_all]; [reflexivity|].
  rewrite (Hown n (or_introl eq_refl)), Z.eqb_refl. cbn [negb].
  rewrite IH by (intros n' Hn'; apply Hown; right; exact Hn'). reflexivity.
Qed.

Lemma diagnostics_from_own_rank i rank (ns : list P) :
  (forall n, In n ns -> getRank n = rank) -> diagnostics_from i rank ns = [].
Proof.
  revert i. induction ns as [|n ns IH]; intros i Hown; cbn [diagnostics_from];
    [reflexivity|].
  rewrite (Hown n (or_introl eq_refl)), Z.eqb_refl. cbn [negb].
  apply IH. intros n' Hn'. apply Hown. right. exact Hn'.
Qed.

(** X10.  When every neighbour is the process itself and the first clock
    reading is at most 60 seconds after the start,
    [finalizeExchangeMoleculesMPI] returns after one pass with the
    neighbours and the container as they were; it logs one warning if
    that reading is more than one second after the start, and nothing
    otherwise. *)
Theorem finalize_own_rank_neighbours (covers : bool * bool * bool)
    (ns : list P) (c : ParticleContainer) (rrd : bool) (rank : Z)
    (t0 now : Q) (clock : list Q) :
  (forall n, In n ns -> getRank n = rank) ->
  now - t0 <= 60 ->
  let e := finalizeExchangeMoleculesMPI covers ns c rrd rank t0 (now :: clock) in
  outcome e = Returned /\ neighbours e = ns /\ moleculeContainer e = c
  /\ log e = if Qlt_bool 1 (now - t0) then [DeadlockWarning rank 1] else [].
Proof.
  intros Hown Hle e. subst e. rewrite finalize_flag. cbn [finalize_loop].
  rewrite !poll_all_own_rank by exact Hown.
  rewrite recv_all_own_rank by exact Hown.
  assert (E60 : Qlt_bool 60 (now - t0) = false).
  { destruct (Qlt_bool 60 (now - t0)) eqn:E; [|reflexivity].
    apply Qlt_bool_iff in E. exfalso. apply (Qlt_irrefl 60).
    eapply Qlt_le_trans; eassumption. }
  unfold diagnostics. rewrite diagnostics_from_own_rank by exact Hown.
  destruct (Qlt_bool 1 (now - t0)); rewrite E60; cbn; auto.
Qed.

Lemma warning_counters_app l1 l2 :
  warning_counters (l1 ++ l2) = warning_counters l1 ++ warning_counters l2.
Proof.
  induction l1 as [|e l1 IH]; [reflexivity|].
  destruct e; cbn; rewrite IH; reflexivity.
Qed.

Lemma warning_counters_diagnostics_from i rank (ns : list P) :
  warning_counters (diagnostics_from i rank ns) = [].
Proof.
  revert i. induction ns as [|n ns IH]; intros i; cbn; [reflexivity|].
  destruct (negb _); cbn; apply IH.
Qed.

Lemma finalize_loop_warning_counters (clock : list Q) (t0 T : Q) (rank : Z)
    (rrd : bool) :
  forall k (ns : list P) c lg,
    warning_counters lg = map threshold (seq 0 k) ->
    exists k', (k <= k' <= k + length clock)%nat
      /\ warning_counters
           (log (finalize_loop clock t0 (threshold k) T rank rrd ns c lg))
         = map threshold (seq 0 k').
Proof.
  induction clock as [|now clock IH]; intros k ns c lg Hlg; cbn [finalize_loop].
  - exists k. cbn. split; [lia|exact Hlg].
  - destruct (poll_all testSend rank ns true) as [a1 ns1].
    destruct (poll_all iprobeCount rank ns1 a1) as [a2 ns2].
    destruct (recv_all rank rrd ns2 c a2) as [[a3 ns3] c3].
    assert (Hw : warning_counters
                   (lg ++ DeadlockWarning rank (threshold k)
                       :: diagnostics rank ns3)
                 = map threshold (seq 0 (S k))).
    { rewrite warning_counters_app, Hlg. cbn [warning_counters].
      unfold diagnostics. rewrite warning_counters_diagnostics_from.
      rewrite seq_S, map_app. reflexivity. }
    assert (Herr : forall l, warning_counters
                     (l ++ DeadlockError rank T :: diagnostics rank ns3)
                   = warning_counters l).
    { intros l. rewrite warning_counters_app. cbn [warning_counters].
      unfold diagnostics. rewrite warning_counters_diagnostics_from.
      apply app_nil_r. }
    destruct (Qlt_bool (threshold k) (now - t0));
      destruct (Qlt_bool T (now - t0)); cbn [log length].
    + exists (S k). rewrite Herr. split; [lia|exact Hw].
    + destruct a3; cbn [log].
      * exists (S k). split; [lia|exact Hw].
      * destruct (IH (S k) ns3 c3 _ Hw) as [k' [Hk' E]].
        exists k'. split; [lia|exact E].
    + exists k. rewrite Herr. split; [lia|exact Hlg].
    + destruct a3; cbn [log].
      * exists k. split; [lia|exact Hlg].
      * destruct (IH k ns3 c3 _ Hlg) as [k' [Hk' E]].
        exists k'. split; [lia|exact E].
Qed.

(** X11.  The deadlock warnings that [finalizeExchangeMoleculesMPI] logs
    name the waiting times 1, 2, 3, ... seconds in order, at most one per
    pass of the loop. *)
Theorem finalize_warnings_count_seconds (covers : bool * bool * bool)
    (ns : list P) (c : ParticleContainer) (rrd : bool) (rank : Z) (t0 : Q)
    (clock : list Q) :
  let e := finalizeExchangeMoleculesMPI covers ns c rrd rank t0 clock in
  exists k, (k <= length clock)%nat
    /\ warning_counters (log e) = map threshold (seq 0 k).
Proof.
  intros e. subst e. rewrite finalize_flag.
  destruct (finalize_loop_warning_counters clock t0 60 rank
              (rrd && (covers.1).1 && (covers.1).2 && covers.2)
              0%nat ns c [] eq_refl) as [k [Hk E]].
  exists k. split; [lia|exact E].
Qed.

(** The three-stage loop hands the container to [testRecv] only, with the
    flag of the caller. *)
Lemma recv_all1D_invariant (I : ParticleContainer -> Prop) rrd :
  (forall (p : P) c, I c -> I (snd (testRecv p c rrd))) ->
  forall (ns : list P) c allDone, I c -> I (snd (recv_all1D rrd ns c allDone)).
Proof.
  intros Hrecv. induction ns as [|n ns IH]; intros c allDone HI;
    cbn [recv_all1D]; [exact HI|].
  pose proof (Hrecv n c HI) as Hn.
  destruct (testRecv n c rrd) as [[b n'] c']. cbn [snd] in Hn.
  specialize (IH c' (allDone && b) Hn).
  destruct (recv_all1D rrd ns c' (allDone && b)) as [[a ns''] c''].
  exact IH.
Qed.

Lemma finalize_loop1D_invariant (I : ParticleContainer -> Prop) rrd
    (clock : list Q) t0 T rank :
  (forall (p : P) c, I c -> I (snd (testRecv p c rrd))) ->
  forall wc (ns : list P) c lg, I c ->
    I (moleculeContainer (finalize_loop1D clock t0 wc T rank rrd ns c lg)).
Proof.
  intros Hrecv. induction clock as [|now clock IH]; intros wc ns c lg HI;
    cbn [finalize_loop1D]; [exact HI|].
  destruct (poll_all1D testSend ns true) as [a1 ns1].
  destruct (poll_all1D iprobeCount ns1 a1) as [a2 ns2].
  pose proof (recv_all1D_invariant I rrd Hrecv ns2 c a2 HI) as Hr.
  destruct (recv_all1D rrd ns2 c a2) as [[a3 ns3] c3]. cbn [snd] in Hr.
  destruct (Qlt_bool wc (now - t0)); destruct (Qlt_bool T (now - t0));
    cbn [moleculeContainer]; try assumption;
    destruct a3; cbn [moleculeContainer]; try assumption; apply IH, Hr.
Qed.

(** X12.  [finalizeExchangeMoleculesMPI1D] keeps every property of the
    container that each single receive keeps; when the process covers the
    whole domain in that dimension it returns at once, with the
    neighbours and the container untouched and nothing logged. *)
Theorem finalize1D_container_invariant (I : ParticleContainer -> Prop)
    (coversWholeDomain_d : bool) (ns : list P) (c : ParticleContainer)
    (rrd : bool) (rank : Z) (t0 : Q) (clock : list Q) :
  (forall (p : P) c', I c' -> I (snd (testRecv p c' rrd))) ->
  I c ->
  let e := finalizeExchangeMoleculesMPI1D coversWholeDomain_d ns c rrd rank
             t0 clock in
  I (moleculeContainer e)
  /\ (coversWholeDomain_d = true ->
      outcome e = Returned /\ neighbours e = ns /\ moleculeContainer e = c
      /\ log e = []).
Proof.
  intros Hrecv HI e. subst e. unfold finalizeExchangeMoleculesMPI1D. split.
  - destruct coversWholeDomain_d; [exact HI|].
    apply finalize_loop1D_invariant; assumption.
  - intros ->. cbn. auto.
Qed.
End ExchangeExtras2.

Section Convert.
Import SIMD HaloExchange Scheme3Stage.
Context {P : Type} `{FaceOps P}.

Lemma convert_step (neighbours : list (list P)) (p : P) (rc : Q) :
  let d := getFaceCommunicationDirection p in
  (d < length neighbours)%nat ->
  <[d := match reverse (<[d := neighbours !!! d ++ [p]]> neighbours !!! d) with
         | [] => []
         | lastp :: before =>
             reverse (enlargeInOtherDirections lastp d rc :: before)
         end]> (<[d := neighbours !!! d ++ [p]]> neighbours)
  = <[d := neighbours !!! d ++ [enlargeInOtherDirections p d rc]]> neighbours.
Proof.
  intros d Hd.
  rewrite list_lookup_total_insert_eq by exact Hd.
  rewrite reverse_snoc, reverse_cons, reverse_involutive.
  apply list_insert_insert_eq.
Qed.

(** X13.  [convert1StageTo3StageNeighbours] keeps the number of
    directions and appends to the neighbours of direction [d] the face
    partners of that direction, in their order and each enlarged in the
    other directions; partners that share no face are dropped.  The
    direction of every face partner must be one of the vector. *)
Theorem convert1StageTo3StageNeighbours_by_direction (commPartners : list P)
    (neighbours : list (list P)) (cutoffRadius : Q) :
  (forall p, In p commPartners -> isFaceCommunicator p = true ->
     (getFaceCommunicationDirection p < length neighbours)%nat) ->
  let out := convert1StageTo3StageNeighbours commPartners neighbours
               cutoffRadius in
  length out = length neighbours
  /\ forall d, (d < length neighbours)%nat ->
       out !!! d
       = neighbours !!! d
         ++ map (fun p => enlargeInOtherDirections p d cutoffRadius)
              (List.filter
                 (fun p => isFaceCommunicator p
                           && Nat.eqb (getFaceCommunicationDirection p) d)
                 commPartners).
Proof.
  unfold convert1StageTo3StageNeighbours.
  revert neighbours.
  induction commPartners as [|p ps IH]; intros neighbours Hdir; cbv zeta;
    cbn [fold_left].
  - split; [reflexivity|]. intros d _. cbn. rewrite app_nil_r. reflexivity.
  - destruct (isFaceCommunicator p) eqn:Ef; cbn [negb].
    + pose proof (Hdir p (or_introl eq_refl) Ef) as Hd.
      rewrite convert_step by exact Hd.
      set (nb := <[_ := _]> neighbours).
      assert (Hlen : length nb = length neighbours)
        by (subst nb; apply length_insert).
      assert (Hdir' : forall q, In q ps -> isFaceCommunicator q = true ->
                (getFaceCommunicationDirection q < length nb)%nat).
      { intros q Hq Hfq. rewrite Hlen. apply Hdir; [right; exact Hq|exact Hfq]. }
      destruct (IH nb Hdir') as [L Hout].
      split; [congruence|].
      intros d Hlt. rewrite Hout by (rewrite Hlen; exact Hlt).
      cbn [List.filter]. rewrite Ef. cbn [andb].
      destruct (Nat.eqb (getFaceCommunicationDirection p) d) eqn:Ed.
      * apply Nat.eqb_eq in Ed. subst d nb.
        rewrite list_lookup_total_insert_eq by exact Hd.
        cbn [map]. rewrite <- app_assoc. reflexivity.
      * apply Nat.eqb_neq in Ed. subst nb.
        rewrite list_lookup_total_insert_ne by exact Ed. reflexivity.
    + assert (Hdir' : forall q, In q ps -> isFaceCommunicator q = true ->
                (getFaceCommunicationDirection q < length neighbours)%nat).
      { intros q Hq Hfq. apply Hdir; [right; exact Hq|exact Hfq]. }
      destruct (IH neighbours Hdir') as [L Hout].
      split; [exact L|]. intros d Hlt. rewrite Hout by exact Hlt.
      cbn [List.filter]. rewrite Ef. reflexivity.
Qed.
End Convert.

Section ExchangeSamples.
Import HaloExchange Scheme3Stage.

Lemma finalize_exits_only_on_timeout_witness :
  log (finalizeExchangeMoleculesMPI (false, false, false) [partner_slow] []
         false 0 0 [1 # 2; 1]) = [].
Proof.
  refine (proj2 (finalize_exits_only_on_timeout (false, false, false)
                   [partner_slow] [] false 0 0 [1 # 2; 1]) _).
  intros now [<-|[<-|[]]]; vm_compute; discriminate.
Defined.

Lemma finalize_own_rank_neighbours_witness :
  outcome (finalizeExchangeMoleculesMPI (false, false, false) [partner_slow]
             [mol7] true 1 0 [30]) = Returned.
Proof.
  refine (proj1 (finalize_own_rank_neighbours (false, false, false)
                   [partner_slow] [mol7] true 1 0 30 [] _ _)).
  - intros n [<-|[]]. reflexivity.
  - vm_compute. discriminate.
Defined.

Lemma finalize1D_container_invariant_witness :
  NoDup (ids (moleculeContainer
                (finalizeExchangeMoleculesMPI1D false [partner_ready] [mol7]
                   true 0 0 [1 # 2]))).
Proof.
  refine (proj1 (finalize1D_container_invariant (fun c => NoDup (ids c)) false
                   [partner_ready] [mol7] true 0 0 [1 # 2] _ _)).
  - intros p c' Hc'. apply testRecv_NoDup, Hc'.
  - vm_compute. apply NoDup_singleton.
Defined.

Lemma convert1StageTo3StageNeighbours_by_direction_witness :
  length (convert1StageTo3StageNeighbours
            [(true, 0%nat, 0); (false, 5%nat, 0); (true, 2%nat, 0)]
            [[]; []; []] 1)
  = 3%nat.
Proof.
  refine (proj1 (convert1StageTo3StageNeighbours_by_direction
                   [(true, 0%nat, 0); (false, 5%nat, 0); (true, 2%nat, 0)]
                   [[]; []; []] 1 _)).
  intros p [<-|[<-|[<-|[]]]] E; vm_compute in E |- *; try discriminate E; lia.
Defined.
End ExchangeSamples.

(** ** The mirror: what the configuration reader guarantees *)

Section MirrorExtras.
Import Mirror.

Lemma is_real_found cfg path x :
  is_real (cfg !! path) = fst (getNodeValue_real cfg path x).
Proof. symmetry. apply getNodeValue_real_found. Qed.

(** X16.  [readXML] exits with -2004 exactly when the type read is
    [MT_MELAND_2004], [meland/velo_target] is missing, and the reference
    to a moving interface, if there is one, has its subject. *)
Theorem readXML_exit_2004_iff (m0 : MirrorState) (subject : option (Q * Q))
    (xmlconfig : gmap string XMLValue) :
  readXML m0 subject xmlconfig = Exit (-2004)
  <-> snd (getNodeValue_int xmlconfig "@type" 0) = MT_MELAND_2004
      /\ is_real (xmlconfig !! "meland/velo_target") = false
      /\ ((0 < snd (getNodeValue_int xmlconfig "position/refID" 0) mod 65536)%Z
          -> subject <> None).
Proof.
  split.
  - unfold readXML.
    destruct (update _ _ _) as [ref_origin coord].
    rewrite (is_real_found xmlconfig "meland/velo_target"
               (_melandParams_velo_target m0)).
    destruct (Z.ltb 0 _) eqn:Hid.
    + destruct subject as [s|]; [|cbn; discriminate].
      rewrite bind_done.
      destruct (Z.eqb MT_ZERO_GRADIENT _) eqn:E3; [cbn; discriminate|].
      rewrite bind_done.
      destruct (Z.eqb MT_NORMDISTR_MB _) eqn:E4; [cbn; discriminate|].
      rewrite bind_done.
      destruct (Z.eqb MT_MELAND_2004 _) eqn:E5.
      * apply Z.eqb_eq in E5.
        destruct (getNodeValue_real xmlconfig "meland/velo_target" _)
          as [found velo].
        destruct found; cbn [negb fst].
        -- rewrite bind_done, <- E5. cbn [Z.eqb MT_RAMPING MT_MELAND_2004 Pos.eqb].
           rewrite bind_done.
           destruct (getNodeValue_real xmlconfig "diffuse/width" 0).
           discriminate.
        -- intros _. repeat split; [congruence|discriminate].
      * rewrite bind_done.
        destruct (Z.eqb MT_RAMPING _).
        -- repeat match goal with
           | |- context [let '(_, _) := ?p in _] => destruct p
           | |- context [if ?b then _ else _] => destruct b
           end; cbn; try discriminate;
           destruct (getNodeValue_real xmlconfig "diffuse/width" 0);
           discriminate.
        -- rewrite bind_done.
           destruct (getNodeValue_real xmlconfig "diffuse/width" 0).
           discriminate.
    + rewrite bind_done.
      destruct (Z.eqb MT_ZERO_GRADIENT _) eqn:E3; [cbn; discriminate|].
      rewrite bind_done.
      destruct (Z.eqb MT_NORMDISTR_MB _) eqn:E4; [cbn; discriminate|].
      rewrite bind_done.
      destruct (Z.eqb MT_MELAND_2004 _) eqn:E5.
      * apply Z.eqb_eq in E5.
        destruct (getNodeValue_real xmlconfig "meland/velo_target" _)
          as [found velo].
        destruct found; cbn [negb fst].
        -- rewrite bind_done, <- E5. cbn [Z.eqb MT_RAMPING MT_MELAND_2004 Pos.eqb].
           rewrite bind_done.
           destruct (getNodeValue_real xmlconfig "diffuse/width" 0).
           discriminate.
        -- intros _. repeat split; [congruence|].
           intros Hlt. apply Z.ltb_lt in Hlt. congruence.
      * rewrite bind_done.
        destruct (Z.eqb MT_RAMPING _).
        -- repeat match goal with
           | |- context [let '(_, _) := ?p in _] => destruct p
           | |- context [if ?b then _ else _] => destruct b
           end; cbn; try discriminate;
           destruct (getNodeValue_real xmlconfig "diffuse/width" 0);
           discriminate.
        -- rewrite bind_done.
           destruct (getNodeValue_real xmlconfig "diffuse/width" 0).
           discriminate.
  - intros (Ht & Hv & Hs).
    unfold readXML.
    destruct (update _ _ _) as [ref_origin coord].
    rewrite Ht.
    assert (Hpre : (if Z.ltb 0 (snd (getNodeValue_int xmlconfig "position/refID" 0)
                                mod 65536)
                    then match subject with
                         | Some _ => Done tt
                         | None => Exit (-1)
                         end
                    else Done tt) = Done tt).
    { destruct (Z.ltb 0 _) eqn:Hid; [|reflexivity].
      apply Z.ltb_lt in Hid. specialize (Hs Hid).
      destruct subject; [reflexivity|congruence]. }
    rewrite Hpre, bind_done.
    cbn [Z.eqb MT_ZERO_GRADIENT MT_NORMDISTR_MB MT_MELAND_2004 Pos.eqb].
    rewrite !bind_done.
    pose proof (getNodeValue_real_found xmlconfig "meland/velo_target"
                  (_melandParams_velo_target m0)) as F.
    destruct (getNodeValue_real xmlconfig "meland/velo_target" _) as [found velo].
    cbn [fst] in F. rewrite Hv in F. subst found. reflexivity.
Qed.

Lemma update_coord subject ref_id ref_coord :
  snd (update subject ref_id ref_coord)
  = fst (update subject ref_id ref_coord) + ref_coord.
Proof. unfold update. destruct subject as [[l r]|]; reflexivity. Qed.

(** X17.  When [readXML] returns, the mirror position is the origin of
    its reference plus the coordinate read, the reference id fits in 16
    bits and has a subject if it is positive, the type is neither
    [MT_ZERO_GRADIENT] nor [MT_NORMDISTR_MB], a ramping mirror has
    start <= stop and treatment 0 or 1, and a Meland mirror has its
    target velocity. *)
Theorem readXML_done_invariants (m0 m : MirrorState)
    (subject : option (Q * Q)) (xmlconfig : gmap string XMLValue) :
  readXML m0 subject xmlconfig = Done m ->
  _position_coord m = _position_ref_origin m + _position_ref_coord m
  /\ (0 <= _position_ref_id m < 65536)%Z
  /\ ((0 < _position_ref_id m)%Z -> subject <> None)
  /\ _type m <> MT_ZERO_GRADIENT /\ _type m <> MT_NORMDISTR_MB
  /\ (_type m = MT_RAMPING ->
      (_rampingParams_startStep m <= _rampingParams_stopStep m)%Z
      /\ (_rampingParams_treatment m = 0%Z \/ _rampingParams_treatment m = 1%Z))
  /\ (_type m = MT_MELAND_2004 ->
      is_real (xmlconfig !! "meland/velo_target") = true).
Proof.
  unfold readXML.
  pose proof (update_coord subject
                (snd (getNodeValue_int xmlconfig "position/refID" 0) mod 65536)
                (snd (getNodeValue_real xmlconfig "position/coord" 0))) as Hu.
  destruct (update _ _ _) as [ref_origin coord]. cbn [fst snd] in Hu.
  subst coord.
  pose proof (getNodeValue_real_found xmlconfig "meland/velo_target"
                (_melandParams_velo_target m0)) as Hfound.
  assert (Hrange : (0 <= snd (getNodeValue_int xmlconfig "position/refID" 0)
                         mod 65536 < 65536)%Z)
    by (apply Z.mod_pos_bound; lia).
  repeat match goal with
  | |- context [let '(_, _) := ?p in _] => destruct p eqn:?
  | |- context [if ?b then _ else _] => destruct b eqn:?
  | |- context [match ?s with Some _ => _ | None => _ end] => destruct s eqn:?
  | |- (Exit _ ≫= _) = _ -> _ => rewrite bind_exit
  | |- (Done _ ≫= _) = _ -> _ => rewrite bind_done
  end; intros E; inversion E; subst m; clear E;
  cbn [_position_coord _position_ref_origin _position_ref_coord
       _position_ref_id _type _rampingParams_startStep
       _rampingParams_stopStep _rampingParams_treatment fst snd] in *.
  all: repeat match goal with
       | Hb : Z.eqb _ _ = true |- _ => apply Z.eqb_eq in Hb
       | Hb : Z.eqb _ _ = false |- _ => apply Z.eqb_neq in Hb
       | Hb : Z.ltb _ _ = true |- _ => apply Z.ltb_lt in Hb
       | Hb : Z.ltb _ _ = false |- _ => apply Z.ltb_ge in Hb
       | Hb : negb _ = false |- _ => apply negb_false_iff in Hb
       | Hb : negb _ = true |- _ => apply negb_true_iff in Hb
       | Hb : (_ || _) = true |- _ =>
           apply orb_true_iff in Hb; destruct Hb as [Hb|Hb]
       end.
  all: (split; [reflexivity|]); (split; [exact Hrange|]).
  all: (split; [first [discriminate | intros; lia]|]).
  all: (split; [congruence|]); (split; [congruence|]).
  all: split; [intros Hr; try congruence; try (split; [lia|auto])
              |intros Hm; try congruence].
Qed.
End MirrorExtras.

Section MirrorSamples.
Import Mirror MirrorForces.

Lemma readXML_exit_codes_witness :
  readXML mirror_fresh None cfg_meland_incomplete = Exit (-2004)
  /\ (-2004 = -1 \/ -2004 = -2004)%Z.
Proof.
  assert (E : readXML mirror_fresh None cfg_meland_incomplete = Exit (-2004)).
  { vm_compute. reflexivity. }
  split; [exact E|].
  exact (readXML_exit_codes mirror_fresh None cfg_meland_incomplete (-2004) E).
Defined.


Lemma readXML_done_invariants_witness :
  match readXML mirror_fresh None cfg_reflect with
  | Done m => _type m <> MT_ZERO_GRADIENT
  | Exit _ => False
  end.
Proof.
  destruct (readXML mirror_fresh None cfg_reflect) as [m|code] eqn:E.
  - exact (proj1 (proj2 (proj2 (proj2
             (readXML_done_invariants mirror_fresh m None cfg_reflect E))))).
  - vm_compute in E. discriminate E.
Defined.

End MirrorSamples.

(** ** The mirror: the velocity change after the forces *)

Section VelocityChangeFacts.
Import SIMD Mirror MirrorForces.
Context {M : Type} `{MoleculeOps M}.
Variable inRegion : Q * Q * Q -> Q * Q * Q -> M -> bool.

Lemma Qlt_bool_opp_pos vy : Qlt_bool 0 vy = true -> Qlt_bool 0 (- vy) = false.
Proof.
  intros E. apply Qlt_bool_iff in E.
  destruct (Qlt_bool 0 (- vy)) eqn:E'; [|reflexivity].
  apply Qlt_bool_iff in E'. lra.
Qed.

Lemma Qlt_bool_opp_neg vy : Qlt_bool vy 0 = true -> Qlt_bool (- vy) 0 = false.
Proof.
  intros E. apply Qlt_bool_iff in E.
  destruct (Qlt_bool (- vy) 0) eqn:E'; [|reflexivity].
  apply Qlt_bool_iff in E'. lra.
Qed.

(** What the body does to a molecule under a reflecting mirror. *)
Lemma velocity_change_body_reflect m it :
  _type m = MT_REFLECT ->
  (forall (p : M) x, v (setv p 1 x) 1 = x) ->
  let it' := velocity_change_body m it in
  (it' = it \/ it' = setv it 1 (- v it 1))
  /\ ((_targetComp m = 0%Z
       \/ ((componentid it + 1) mod 2 ^ 32)%Z = _targetComp m) ->
      moves_towards m it' = false)
  /\ (it' = it \/ moves_towards m it' = false).
Proof.
  intros Ht Hset it'. subst it'. unfold velocity_change_body, moves_towards.
  rewrite Ht. cbn [Z.eqb MT_REFLECT Pos.eqb].
  destruct (negb (Z.eqb (_targetComp m) 0)
            && negb (Z.eqb ((componentid it + 1) mod 2 ^ 32) (_targetComp m)))
    eqn:Etc.
  - split; [left; reflexivity|]. split; [|left; reflexivity].
    intros [E|E]; rewrite E in Etc.
    + cbn in Etc. discriminate.
    + rewrite Z.eqb_refl, andb_false_r in Etc. discriminate.
  - destruct (Z.eqb MD_RIGHT_MIRROR (_direction m)) eqn:Er;
      destruct (Z.eqb MD_LEFT_MIRROR (_direction m)) eqn:El;
      try (apply Z.eqb_eq in Er; apply Z.eqb_eq in El;
           rewrite <- Er in El; discriminate El);
      cbn [andb orb].
    + destruct (Qlt_bool 0 (v it 1)) eqn:Ev; cbn [andb orb].
      * rewrite Hset, (Qlt_bool_opp_pos _ Ev). auto.
      * rewrite Ev. auto.
    + destruct (Qlt_bool (v it 1) 0) eqn:Ev; cbn [andb orb].
      * rewrite Hset, (Qlt_bool_opp_neg _ Ev). auto.
      * rewrite Ev. auto.
    + auto.
Qed.

(** A molecule that does not move towards the mirror is left alone. *)
Lemma velocity_change_body_settled m it :
  _type m = MT_REFLECT ->
  moves_towards m it = false -> velocity_change_body m it = it.
Proof.
  intros Ht Hm. unfold velocity_change_body, moves_towards in *.
  rewrite Ht. cbn [Z.eqb MT_REFLECT Pos.eqb]. rewrite Hm.
  destruct (negb _ && negb _); reflexivity.
Qed.

(** X18.  Under a reflecting mirror [VelocityChange] (and so
    [afterForces]) leaves each molecule as it is or negates its y
    velocity; afterwards no molecule that the region iterator visited,
    of the target component, moves towards the mirror; and a second call
    changes nothing.  [setv] must set the component that [v] reads. *)
Theorem VelocityChange_reflect (m : MirrorState) (bbMin bbMax : Q * Q * Q)
    (particleContainer : list M) :
  _type m = MT_REFLECT ->
  (forall (p : M) x, v (setv p 1 x) 1 = x) ->
  let out := VelocityChange inRegion m bbMin bbMax particleContainer in
  VelocityChange inRegion m bbMin bbMax out = out
  /\ Forall2
       (fun it it' =>
          (it' = it \/ it' = setv it 1 (- v it 1))
          /\ forall low high,
               mirror_region m bbMin bbMax = Some (low, high) ->
               inRegion low high it = true ->
               (_targetComp m = 0%Z
                \/ ((componentid it + 1) mod 2 ^ 32)%Z = _targetComp m) ->
               moves_towards m it' = false)
       particleContainer out.
Proof.
  intros Ht Hset out. subst out. unfold VelocityChange.
  destruct (mirror_region m bbMin bbMax) as [[low high]|] eqn:Ereg.
  2:{ split; [reflexivity|].
      induction particleContainer; constructor; auto.
      split; [left; reflexivity|]. intros low high E. discriminate E. }
  set (g := fun it => if inRegion low high it
                      then velocity_change_body m it else it).
  assert (Hg : forall it,
            (g it = it \/ g it = setv it 1 (- v it 1))
            /\ (inRegion low high it = true ->
                (_targetComp m = 0%Z
                 \/ ((componentid it + 1) mod 2 ^ 32)%Z = _targetComp m) ->
                moves_towards m (g it) = false)
            /\ g (g it) = g it).
  { intros it. subst g. cbv beta.
    destruct (velocity_change_body_reflect m it Ht Hset) as (H1 & H2 & H3).
    destruct (inRegion low high it) eqn:Ein.
    - split; [exact H1|]. split; [intros _; exact H2|].
      destruct (inRegion low high (velocity_change_body m it)); [|reflexivity].
      destruct H3 as [E|E].
      + rewrite !E. reflexivity.
      + apply velocity_change_body_settled; assumption.
    - split; [left; reflexivity|]. split; [intros E; discriminate E|].
      rewrite Ein. reflexivity. }
  split.
  - rewrite map_map. apply map_ext. intros p. apply Hg.
  - induction particleContainer as [|p ps IH]; constructor; [|exact IH].
    destruct (Hg p) as (H1 & H2 & _). split; [exact H1|].
    intros low' high' E. inversion E; subst low' high'. exact H2.
Qed.
End VelocityChangeFacts.

Section VelocitySamples.
Import Mirror MirrorForces.
Lemma VelocityChange_reflect_witness :
  let out := VelocityChange in_box mirror_reflect (0, 0, 0) (10, 10, 10)
               [particle_up] in
  VelocityChange in_box mirror_reflect (0, 0, 0) (10, 10, 10) out = out
  /\ moves_towards mirror_reflect (hd particle_up out) = false.
Proof.
  assert (Hset : forall (p : SampleMolecule) x, v (setv p 1 x) 1 = x).
  { intros p x. reflexivity. }
  destruct (VelocityChange_reflect in_box mirror_reflect (0, 0, 0)
              (10, 10, 10) [particle_up] eq_refl Hset) as [Hidem Hall].
  split; [exact Hidem|].
  inversion Hall as [|it it' l l' [_ Hm] Hrest E1 E2]. cbn [hd].
  apply (Hm (0, 5, 0) (10, 10, 10)).
  - vm_compute. reflexivity.
  - vm_compute. reflexivity.
  - left. reflexivity.
Defined.
End VelocitySamples.
